(** * Inline-media reconciliation of [praw.models.reddit.mixins.editable]

    A shallow embedding of [EditableMixin._replace_richtext_links] and of the
    ordering of effects in [EditableMixin.edit], together with the properties
    the specification states about them.

    Python values are embedded as a JSON-like tree, dictionaries as finite
    maps, the document list as a list updated by index, and exceptions as an
    explicit outcome next to the (possibly already mutated) document. *)

From Stdlib Require Import String Ascii ZArith.
From stdpp Require Import base option list strings gmap.

Open Scope string_scope.

#[local] Set Warnings "-register-all,-clear-no-such-hyp".

(** ** Python values and exceptions *)

Module Py.

(** The values a decoded JSON response is made of.  A [dict] is only ever
    accessed by key in the code below, so it is a finite map.  A [str] is a
    string of bytes; the separators the code splits at are single bytes. *)
Inductive json : Type :=
  | JNull
  | JBool (b : bool)
  | JNum (n : Z)
  | JStr (s : string)
  | JList (l : list json)
  | JDict (d : gmap string json).

(** The exceptions the embedded code can raise. [KeyError] carries the key. *)
Inductive exn : Type :=
  | KeyError (k : json)
  | IndexError
  | TypeError
  | AttributeError
  | AssertionError.

Inductive outcome (A : Type) : Type :=
  | Return (a : A)
  | Raise (e : exn).
Arguments Return {A} a.
Arguments Raise {A} e.

(** [v.get(k)]: only a dict has the method; a missing key gives [None]. *)
Definition get (v : json) (k : string) : outcome json :=
  match v with
  | JDict d => Return (default JNull (d !! k))
  | _ => Raise AttributeError
  end.

(** [v[k]] with a string key. *)
Definition getitem (v : json) (k : string) : outcome json :=
  match v with
  | JDict d =>
      match d !! k with
      | Some x => Return x
      | None => Raise (KeyError (JStr k))
      end
  | _ => Raise TypeError
  end.

(** [for item in v]: the sequence of values the loop visits.  A dict yields
    its keys; their order plays no part below, a key having no [get]. *)
Definition iter (v : json) : outcome (list json) :=
  match v with
  | JList l => Return l
  | JDict d => Return (JStr <$> (map_to_list d).*1)
  | JStr s =>
      Return ((fun a => JStr (String a EmptyString)) <$> list_ascii_of_string s)
  | _ => Raise TypeError
  end.

(** *** [str.split] and [re.split] *)

(** Prepend a character to the first piece of a split. *)
Definition cons_head (a : ascii) (pieces : list string) : list string :=
  match pieces with
  | [] => [String a EmptyString]
  | p :: ps => String a p :: ps
  end.

(** [s.split(sep)] for a non-empty separator: occurrences are taken left to
    right without overlap; [skip] counts the characters of a matched
    separator still to be dropped. *)
Fixpoint split_from (sep : string) (skip : nat) (s : string) : list string :=
  match s with
  | EmptyString => [EmptyString]
  | String a s' =>
      match skip with
      | S k => split_from sep k s'
      | O =>
          if String.prefix sep s
          then EmptyString :: split_from sep (String.length sep - 1) s'
          else cons_head a (split_from sep 0 s')
      end
  end.

Definition split (s sep : string) : list string := split_from sep 0 s.

(** [re.split(r"[./]", s)]: split at every character of the class. *)
Definition dot_or_slash (a : ascii) : bool :=
  (Ascii.eqb a "."%char || Ascii.eqb a "/"%char)%bool.

Fixpoint re_split_class (cls : ascii -> bool) (s : string) : list string :=
  match s with
  | EmptyString => [EmptyString]
  | String a s' =>
      if cls a then EmptyString :: re_split_class cls s'
      else cons_head a (re_split_class cls s')
  end.

(** [c in s] for a character and [sub in s] for a substring. *)
Fixpoint has_char (c : ascii) (s : string) : bool :=
  match s with
  | EmptyString => false
  | String a s' => (Ascii.eqb c a || has_char c s')%bool
  end.

Fixpoint contains (sub s : string) : bool :=
  match s with
  | EmptyString => String.prefix sub s
  | String _ s' => (String.prefix sub s || contains sub s')%bool
  end.

(** [v == s] for a string literal [s]: only an equal [str] compares equal. *)
Definition eq_str (v : json) (s : string) : bool :=
  match v with
  | JStr s' => String.eqb s' s
  | _ => false
  end.

(** [v.split(sep)]: a method of [str] only. *)
Definition str_split (v : json) (sep : string) : outcome (list string) :=
  match v with
  | JStr s => Return (split s sep)
  | _ => Raise AttributeError
  end.

#[global] Instance outcome_ret : MRet outcome := fun A => @Return A.
#[global] Instance outcome_bind : MBind outcome := fun A B f m =>
  match m with
  | Return a => f a
  | Raise e => Raise e
  end.

(** [l[i] = v] on a list: an index out of range is an [IndexError]. *)
Definition setitem {A} (l : list A) (i : nat) (v : A) : list A * outcome unit :=
  if decide (i < length l) then (<[i := v]> l, Return tt)
  else (l, Raise IndexError).

(** [l[i]] on a list. *)
Definition index {A} (l : list A) (i : nat) : outcome A :=
  match l !! i with
  | Some x => Return x
  | None => Raise IndexError
  end.

End Py.

Import Py.

(** ** The reconciler: [EditableMixin._replace_richtext_links] *)

Definition MEDIA_TYPE_MAPPING : gmap string string :=
  {[ "Image" := "img"; "RedditVideo" := "video"; "AnimatedImage" := "gif" ]}.

(** [MEDIA_TYPE_MAPPING[k]]: a missing key is a [KeyError], an unhashable
    key a [TypeError]. *)
Definition media_type_lookup (k : json) : outcome string :=
  match k with
  | JStr s =>
      match MEDIA_TYPE_MAPPING !! s with
      | Some kind => Return kind
      | None => Raise (KeyError k)
      end
  | JList _ | JDict _ => Raise TypeError
  | _ => Raise (KeyError k)
  end.

(** [MEDIA_TYPE_MAPPING[value["e"]]] *)
Definition canonical_kind (value : json) : outcome string :=
  k ← getitem value "e"; media_type_lookup k.

(** The loop over [self.media_metadata.items()], in the order of the dict,
    filling [parsed_media_types]. *)
Fixpoint parse_media_types (items : list (string * json))
    (parsed_media_types : gmap string string) : outcome (gmap string string) :=
  match items with
  | [] => Return parsed_media_types
  | (media_id, value) :: rest =>
      kind ← canonical_kind value;
      parse_media_types rest (<[media_id := kind]> parsed_media_types)
  end.

(** The tokens of a link URL: [item["u"].split("https://")[1].split("?")[0]]
    split by [re.split(r"[./]", url)]. *)
Definition url_tokens (u : json) : outcome (list string) :=
  parts ← str_split u "https://";
  rest ← index parts 1;
  url ← index (split rest "?") 0;
  Return (re_split_class dot_or_slash url).

(** [ids.intersection(tokens)], in the order the tokens are met. *)
Definition intersection (ids : gset string) (tokens : list string)
    : list string :=
  filter (fun t => t ∈ ids) tokens.

(** [set.pop()] removes an arbitrary member.  The choice is a parameter of
    the development: any function that returns a member of a non-empty
    collection. *)
Class SetPop := {
  set_pop : list string -> string;
  set_pop_elem : forall x l, set_pop (x :: l) ∈ x :: l
}.

(** One possible choice, used to run the code on concrete inputs. *)
Program Definition first_pop : SetPop :=
  {| set_pop l := default EmptyString (head l) |}.
Next Obligation. intros x l. simpl. apply list_elem_of_here. Qed.

(** Another one, picking the last member. *)
Program Definition last_pop : SetPop :=
  {| set_pop l := default EmptyString (last l) |}.
Next Obligation.
  intros x l. simpl. destruct (last (x :: l)) as [y|] eqn:E.
  - simpl. apply list_elem_of_lookup. rewrite last_lookup in E. eauto.
  - rewrite last_cons in E. destruct (last l); discriminate.
Qed.

Section reconciler.
Context `{!SetPop}.

(** The body of [if item.get("e") == "link":] up to the assignment: the
    element that is to replace the block, if an identifier matched. *)
Definition correct_element_for (parsed_media_types : gmap string string)
    (item : json) : outcome (option json) :=
  let ids := dom parsed_media_types in
  u ← getitem item "u";
  tokens ← url_tokens u;
  let matched_id := intersection ids tokens in
  match matched_id with
  | [] => Return None
  | _ :: _ =>
      let matched_id := set_pop matched_id in
      kind ← match parsed_media_types !! matched_id with
             | Some kind => Return kind
             | None => Raise (KeyError (JStr matched_id))
             end;
      let correct_element : gmap string json :=
        {[ "e" := JStr kind; "id" := JStr matched_id ]} in
      t ← get item "t";
      (* [item.get("u")] is the str [u] here: the split above succeeded *)
      match u with
      | JStr url =>
          if negb (eq_str t url)
          then
            caption ← getitem item "t";
            Return (Some (JDict (<["c" := caption]> correct_element)))
          else Return (Some (JDict correct_element))
      | _ => Raise AttributeError
      end
  end.

(** One round of [for item in element.get("c")]. *)
Definition replace_item (parsed_media_types : gmap string string)
    (index : nat) (item : json) (document : list json)
    : list json * outcome unit :=
  match get item "e" with
  | Raise e => (document, Raise e)
  | Return tag =>
      if eq_str tag "link" then
        match correct_element_for parsed_media_types item with
        | Raise e => (document, Raise e)
        | Return None => (document, Return tt)
        | Return (Some correct_element) =>
            setitem document index correct_element
        end
      else (document, Return tt)
  end.

Fixpoint replace_items (parsed_media_types : gmap string string)
    (index : nat) (items : list json) (document : list json)
    : list json * outcome unit :=
  match items with
  | [] => (document, Return tt)
  | item :: rest =>
      match replace_item parsed_media_types index item document with
      | (document', Return _) =>
          replace_items parsed_media_types index rest document'
      | (document', Raise e) => (document', Raise e)
      end
  end.

(** [tag in ["gif", "img", "video"]] *)
Definition is_inline_kind (tag : json) : bool :=
  existsb (eq_str tag) ["gif"; "img"; "video"].

(** One round of [for index, element in enumerate(...)].  The [assert]
    statement is executed: the interpreter runs without [-O]. *)
Definition replace_element (parsed_media_types : gmap string string)
    (index : nat) (element : json) (document : list json)
    : list json * outcome unit :=
  match get element "c" with
  | Raise e => (document, Raise e)
  | Return (JStr _) =>
      match get element "e" with
      | Raise e => (document, Raise e)
      | Return tag =>
          if is_inline_kind tag
          then (document, Return tt)
          else (document, Raise AssertionError)
      end
  | Return element_items =>
      match iter element_items with
      | Raise e => (document, Raise e)
      | Return items =>
          replace_items parsed_media_types index items document
      end
  end.

(** The loop over the snapshot [richtext_json["document"][:]]; [document]
    is the list object itself, assigned to by index. *)
Fixpoint replace_elements (parsed_media_types : gmap string string)
    (index : nat) (snapshot : list json) (document : list json)
    : list json * outcome unit :=
  match snapshot with
  | [] => (document, Return tt)
  | element :: rest =>
      match replace_element parsed_media_types index element document with
      | (document', Return _) =>
          replace_elements parsed_media_types (S index) rest document'
      | (document', Raise e) => (document', Raise e)
      end
  end.

(** [media_metadata] is [None] when the object has no such attribute
    ([hasattr] is false) and otherwise the dict, in its own order.
    [document] is the list [richtext_json["document"]]; the result is that
    list after the call and how the call ended. *)
Definition _replace_richtext_links
    (media_metadata : option (list (string * json)))
    (document : list json) : list json * outcome unit :=
  match media_metadata with
  | None => (document, Return tt)
  | Some items =>
      match parse_media_types items ∅ with
      | Raise e => (document, Raise e)
      | Return parsed_media_types =>
          replace_elements parsed_media_types 0 document document
      end
  end.

End reconciler.

(** ** The order of effects in [EditableMixin.edit] *)

(** The calls [edit] makes to its collaborators, in the order it makes them.
    The collaborators themselves, the pattern search, [str.format], [dumps]
    and the path of the endpoint are parameters.  [richtext_json] is followed
    through its ["document"] list.  The description of this section goes up
    to the request, lines 107 to 129, with collaborators that return; the
    whole function, with collaborators that may raise and the refresh of the
    attributes of [self], is [Full.edit] below. *)
Inductive call (Media : Type) : Type :=
  | UploadInlineMedia (media : Media)
  | ConvertToFancypants (body : string)
  | Post (path : string) (data : gmap string json).
Arguments UploadInlineMedia {Media} media.
Arguments ConvertToFancypants {Media} body.
Arguments Post {Media} path data.

Section edit.
Context `{!SetPop}.
Context {Media : Type}.
Variable INLINE_MEDIA_PATTERN_search : string -> bool.
Variable _upload_inline_media : Media -> string.
Variable format : string -> list (string * string) -> string.
Variable _convert_to_fancypants : string -> list json.
Variable dumps : list json -> string.
Variable API_PATH_edit : string.

(** [if inline_media:] holds for a dict with an entry. *)
Definition truthy (inline_media : option (list (string * Media))) : bool :=
  match inline_media with
  | Some (_ :: _) => true
  | _ => false
  end.

Definition entries (inline_media : option (list (string * Media)))
    : list (string * Media) :=
  default [] inline_media.

(** The uploads of the dict comprehension. *)
Definition uploads (inline_media : option (list (string * Media)))
    : list (call Media) :=
  if truthy inline_media
  then (fun entry => UploadInlineMedia entry.2) <$> entries inline_media
  else [].

(** [body] when the conversion is reached. *)
Definition formatted (body : string)
    (inline_media : option (list (string * Media))) : string :=
  if truthy inline_media
  then format body
         ((fun entry => (entry.1, _upload_inline_media entry.2))
            <$> entries inline_media)
  else body.

Definition is_richtext_json (body : string)
    (inline_media : option (list (string * Media))) : bool :=
  (INLINE_MEDIA_PATTERN_search body || truthy inline_media)%bool.

Definition edit (fullname : string) (validate_on_submit : bool)
    (media_metadata : option (list (string * json)))
    (body : string) (preserve_inline_media : bool)
    (inline_media : option (list (string * Media)))
    : list (call Media) * outcome unit :=
  let data : gmap string json :=
    {[ "thing_id" := JStr fullname;
       "validate_on_submit" := JBool validate_on_submit ]} in
  let calls := uploads inline_media in
  if is_richtext_json body inline_media then
    let body := formatted body inline_media in
    let richtext_json := _convert_to_fancypants body in
    let calls := (calls ++ [ConvertToFancypants body])%list in
    let '(richtext_json, r) :=
      if preserve_inline_media
      then _replace_richtext_links media_metadata richtext_json
      else (richtext_json, Return tt) in
    match r with
    | Raise e => (calls, Raise e)
    | Return _ =>
        let data := <["richtext_json" := JStr (dumps richtext_json)]> data in
        ((calls ++ [Post API_PATH_edit data])%list, Return tt)
    end
  else
    let data := <["text" := JStr body]> data in
    ((calls ++ [Post API_PATH_edit data])%list, Return tt).

End edit.

(** ** The names the specification gives to the exceptions *)

Definition UnknownMediaKind (kind : string) : exn := KeyError (JStr kind).
Definition SchemaViolation : exn := AssertionError.

(** ** The vocabulary of the specification *)

(** The leaf [{"e": kind, "id": id}], with ["c": caption] when there is
    a caption. *)
Definition media_element (kind id : string) (caption : option json) : json :=
  let correct_element : gmap string json :=
    {[ "e" := JStr kind; "id" := JStr id ]} in
  match caption with
  | None => JDict correct_element
  | Some c => JDict (<["c" := c]> correct_element)
  end.

(** [item] is an inline item tagged ["link"]. *)
Definition is_link (item : json) : Prop :=
  exists fields, item = JDict fields /\ fields !! "e" = Some (JStr "link").

(** [ce] is what some link item of [element] is reconciled to. *)
Definition replaces `{!SetPop} (parsed : gmap string string)
    (element ce : json) : Prop :=
  exists items item,
    get element "c" = Return (JList items) /\ item ∈ items /\
    is_link item /\ correct_element_for parsed item = Return (Some ce).

(** [item] is a tagged record and, when it is a link, its URL has tokens and
    none of them is one of [keys]. *)
Definition no_match (keys : list string) (item : json) : Prop :=
  exists fields, item = JDict fields /\
    (fields !! "e" = Some (JStr "link") ->
     exists u tokens, fields !! "u" = Some (JStr u) /\
       url_tokens (JStr u) = Return tokens /\
       forall t, t ∈ tokens -> t ∉ keys).

(** [element] is an inline leaf of a known kind, or a block whose items all
    satisfy [no_match]. *)
Definition quiet_block (keys : list string) (element : json) : Prop :=
  exists fields, element = JDict fields /\
    ((exists s, fields !! "c" = Some (JStr s) /\
        is_inline_kind (default JNull (fields !! "e")) = true) \/
     (exists items, fields !! "c" = Some (JList items) /\
        Forall (no_match keys) items)).

(** [item] is a tagged record and, when it is a link, its URL is a string
    with ["https://"] in it. *)
Definition link_has_scheme (item : json) : Prop :=
  exists fields, item = JDict fields /\
    (fields !! "e" = Some (JStr "link") ->
     exists u, fields !! "u" = Some (JStr u) /\ contains "https://" u = true).

(** [element] is an inline leaf of a known kind, or a block of such items. *)
Definition well_formed_block (element : json) : Prop :=
  exists fields, element = JDict fields /\
    ((exists s, fields !! "c" = Some (JStr s) /\
        is_inline_kind (default JNull (fields !! "e")) = true) \/
     (exists items, fields !! "c" = Some (JList items) /\
        Forall link_has_scheme items)).

(** A media descriptor as the data model has it: a record with a kind
    field holding a string. *)
Definition well_formed_descriptor (value : json) : Prop :=
  exists fields kind, value = JDict fields /\ fields !! "e" = Some (JStr kind).

(** ** Joining the pieces of two splits *)

(** The pieces of [p ++ s]: those of [p] and of [s], the last piece of [p]
    joined to the first piece of [s]. *)
Fixpoint glue (l1 l2 : list string) : list string :=
  match l1 with
  | [] => l2
  | x :: l1' =>
      match l1' with
      | [] =>
          match l2 with
          | [] => [x]
          | h :: t => (x ++ h) :: t
          end
      | _ :: _ => x :: glue l1' l2
      end
  end.

(** ** Concrete documents *)

Module Sample.

Definition link (u t : string) : json :=
  JDict {[ "e" := JStr "link"; "u" := JStr u; "t" := JStr t ]}.
Definition text (t : string) : json :=
  JDict {[ "e" := JStr "text"; "t" := JStr t ]}.
Definition par (items : list json) : json :=
  JDict {[ "e" := JStr "par"; "c" := JList items ]}.
Definition leaf (kind id caption : string) : json :=
  JDict {[ "e" := JStr kind; "id" := JStr id; "c" := JStr caption ]}.
Definition descriptor (kind : string) : json :=
  JDict {[ "status" := JStr "valid"; "e" := JStr kind ]}.

Definition one_image : list (string * json) := [("abc", descriptor "Image")].

End Sample.

Import Sample.

(** ** The pattern [INLINE_MEDIA_PATTERN] *)

Module Re.

(** The constructs of the regular expressions of [re] that the pattern is
    made of.  [Dot] is [.], any character but a newline; [NotAhead s] is
    [(?!s)].  A character is an [ascii] here. *)
Inductive regex : Type :=
  | Eps
  | Lit (s : string)
  | Dot
  | Class (cls : ascii -> bool)
  | Seq (r1 r2 : regex)
  | Alt (r1 r2 : regex)
  | Star (r : regex)
  | NotAhead (s : string).

(** [r?] and [r+].  Whether a repetition is greedy or lazy does not change
    whether there is a match. *)
Definition Opt (r : regex) : regex := Alt r Eps.
Definition Plus (r : regex) : regex := Seq r (Star r).

Definition newline : ascii := "010"%char.

Fixpoint strip_prefix (l s : string) : option string :=
  match l with
  | EmptyString => Some s
  | String a l' =>
      match s with
      | EmptyString => None
      | String b s' => if Ascii.eqb a b then strip_prefix l' s' else None
      end
  end.

(** [matches r s k]: some match of [r] at the start of [s] leaves a rest
    that [k] accepts.  A repetition goes on only after a round that took a
    character, so the length of [s] bounds the rounds. *)
Fixpoint matches (r : regex) (s : string) (k : string -> bool) : bool :=
  match r with
  | Eps => k s
  | Lit l =>
      match strip_prefix l s with
      | Some s' => k s'
      | None => false
      end
  | Dot =>
      match s with
      | EmptyString => false
      | String a s' => (negb (Ascii.eqb a newline) && k s')%bool
      end
  | Class cls =>
      match s with
      | EmptyString => false
      | String a s' => (cls a && k s')%bool
      end
  | Seq r1 r2 => matches r1 s (fun s' => matches r2 s' k)
  | Alt r1 r2 => (matches r1 s k || matches r2 s k)%bool
  | Star r' =>
      (fix rounds (fuel : nat) (s : string) : bool :=
         (k s ||
          match fuel with
          | O => false
          | S fuel' =>
              matches r' s (fun s' =>
                Nat.ltb (String.length s') (String.length s) && rounds fuel' s')
          end)%bool) (String.length s) s
  | NotAhead l => (negb (String.prefix l s) && k s)%bool
  end.

(** [pattern.search(s)] as a truth value: there is a match at some position
    of [s]. *)
Fixpoint search (r : regex) (s : string) : bool :=
  (matches r s (fun _ => true) ||
   match s with
   | EmptyString => false
   | String _ s' => search r s'
   end)%bool.

End Re.

Import Re.

(** [[a-zA-Z0-9]] *)
Definition alphanumeric (a : ascii) : bool :=
  let n := nat_of_ascii a in
  (Nat.leb 97 n && Nat.leb n 122 || Nat.leb 65 n && Nat.leb n 90 ||
   Nat.leb 48 n && Nat.leb n 57)%bool.

Definition blank_line : string := String newline (String newline EmptyString).
Definition space_quote : string := String " " (String "034" EmptyString).
Definition quote : string := String "034" EmptyString.

(** [https://((preview|i)\.redd\.it|reddit.com/link).*?] *)
Definition reddit_url : regex :=
  Seq (Lit "https://")
    (Seq (Alt (Seq (Alt (Lit "preview") (Lit "i")) (Lit ".redd.it"))
              (Seq (Lit "reddit") (Seq Dot (Lit "com/link"))))
         (Star Dot)).

(** [(?!https)([a-zA-Z0-9]+( \".*?\")?)] *)
Definition media_id_with_caption : regex :=
  Seq (NotAhead "https")
    (Seq (Plus (Class alphanumeric))
         (Opt (Seq (Lit space_quote) (Seq (Star Dot) (Lit quote))))).

(** The pattern of lines 11 to 13: two newlines, [!?], [(\[.*?])?], [\(?],
    one of the two alternatives, [\)?]. *)
Definition INLINE_MEDIA_PATTERN : regex :=
  Seq (Lit blank_line)
    (Seq (Opt (Lit "!"))
       (Seq (Opt (Seq (Lit "[") (Seq (Star Dot) (Lit "]"))))
          (Seq (Opt (Lit "("))
             (Seq (Alt reddit_url media_id_with_caption)
                (Opt (Lit ")")))))).

(** ** The refresh of the attributes at the end of [edit] *)

(** What [self._reddit.post] returns: a list of objects, each given by its
    [__dict__], or a dict. *)
Inductive response (V : Type) : Type :=
  | Objects (l : list (gmap string V))
  | Mapping (d : gmap string V).
Arguments Objects {V} l.
Arguments Mapping {V} d.

Definition TRANSIENT_ATTRIBUTES : list string :=
  ["_fetched"; "_reddit"; "_submission"; "replies"; "subreddit"].

Section update_attributes.
Context {V : Type}.

(** The loop [for attribute in [...]: if attribute in updated.__dict__:
    delattr(updated, attribute)]. *)
Definition delete_attributes (attributes : list string)
    (updated : gmap string V) : gmap string V :=
  foldl (fun d attribute =>
           if decide (is_Some (d !! attribute)) then delete attribute d else d)
        updated attributes.

(** Lines 130 to 143 of [edit]: [self.__dict__] after the update, from the
    response and [self.__dict__] before it.  [updated[0]] on a dict looks up
    the key [0], which a decoded JSON object does not have;
    [dict.update] takes a dict, or a sequence of pairs, which an empty list
    is and a list of objects is not. *)
Definition update_attributes (is_richtext_json : bool)
    (updated : response V) (self_dict : gmap string V)
    : outcome (gmap string V) :=
  if negb is_richtext_json then
    match updated with
    | Objects l =>
        first ← index l 0;
        Return (delete_attributes TRANSIENT_ATTRIBUTES first ∪ self_dict)
    | Mapping _ => Raise (KeyError (JNum 0))
    end
  else
    match updated with
    | Mapping d => Return (d ∪ self_dict)
    | Objects [] => Return self_dict
    | Objects (_ :: _) => Raise TypeError
    end.

End update_attributes.

(** ** The whole of [EditableMixin.edit] *)

(** How a call of [edit] ends: it returns, it raises one of the exceptions of
    the code above, or one of the functions it calls raises; what a callee
    raises is a value of [E]. *)
Inductive ended (E A : Type) : Type :=
  | Returned (a : A)
  | Raised (e : exn)
  | Failed (e : E).
Arguments Returned {E A} a.
Arguments Raised {E A} e.
Arguments Failed {E A} e.

Module Full.
Section edit.
Context `{!SetPop} {Media V E : Type}.
Variable _upload_inline_media : Media -> E + string.
Variable format : string -> list (string * string) -> E + string.
Variable _convert_to_fancypants : string -> E + list json.
Variable post : string -> gmap string json -> E + response V.
Variable dumps : list json -> string.
Variable API_PATH_edit : string.

(** The dict comprehension of lines 116 to 119: the media are uploaded in
    the order of the dict, up to the first upload that raises. *)
Fixpoint upload_entries (inline_media : list (string * Media))
    : list (call Media) * (E + list (string * string)) :=
  match inline_media with
  | [] => ([], inr [])
  | (placeholder, media) :: rest =>
      match _upload_inline_media media with
      | inl e => ([UploadInlineMedia media], inl e)
      | inr url =>
          let '(calls, urls) := upload_entries rest in
          (UploadInlineMedia media :: calls,
           match urls with
           | inl e => inl e
           | inr urls => inr ((placeholder, url) :: urls)
           end)
      end
  end.

(** Lines 107 to 144.  The calls made, in order, a call that raised
    included, and how [edit] ends; when it returns, [self.__dict__] as the
    refresh leaves it.  [self_dict] is [self.__dict__] before the call, and
    [media_metadata] what the reconciler finds under that name: [None] when
    [hasattr] fails. *)
Definition edit (self_dict : gmap string V)
    (fullname : string) (validate_on_submit : bool)
    (media_metadata : option (list (string * json)))
    (body : string) (preserve_inline_media : bool)
    (inline_media : option (list (string * Media)))
    : list (call Media) * ended E (gmap string V) :=
  let data : gmap string json :=
    {[ "thing_id" := JStr fullname;
       "validate_on_submit" := JBool validate_on_submit ]} in
  let is_richtext_json := search INLINE_MEDIA_PATTERN body in
  let '(calls, formatted) :=
    if truthy inline_media then
      match upload_entries (entries inline_media) with
      | (calls, inl e) => (calls, inl e)
      | (calls, inr urls) =>
          (calls,
           match format body urls with
           | inl e => inl e
           | inr body => inr (body, true)
           end)
      end
    else ([], inr (body, is_richtext_json)) in
  match formatted with
  | inl e => (calls, Failed e)
  | inr (body, is_richtext_json) =>
      let '(calls, prepared) :=
        if is_richtext_json then
          let calls := (calls ++ [ConvertToFancypants body])%list in
          match _convert_to_fancypants body with
          | inl e => (calls, inl (Failed e))
          | inr richtext_json =>
              let '(richtext_json, r) :=
                if preserve_inline_media
                then _replace_richtext_links media_metadata richtext_json
                else (richtext_json, Return tt) in
              match r with
              | Raise e => (calls, inl (Raised e))
              | Return _ =>
                  (calls,
                   inr (<["richtext_json" := JStr (dumps richtext_json)]> data))
              end
          end
        else (calls, inr (<["text" := JStr body]> data)) in
      match prepared with
      | inl stop => (calls, stop)
      | inr data =>
          let calls := (calls ++ [Post API_PATH_edit data])%list in
          match post API_PATH_edit data with
          | inl e => (calls, Failed e)
          | inr updated =>
              match update_attributes is_richtext_json updated self_dict with
              | Raise e => (calls, Raised e)
              | Return self_dict' => (calls, Returned self_dict')
              end
          end
      end
  end.

End edit.
End Full.


(** ** More concrete inputs *)

Definition image_and_video : list (string * json) :=
  [("abc", descriptor "Image"); ("xyz", descriptor "RedditVideo")].

(** * Facts *)

(** ** The splits on concrete strings *)

Example split_scheme :
  split "https://i.redd.it/abc.png?width=640" "https://"
    = [EmptyString; "i.redd.it/abc.png?width=640"].
Proof. reflexivity. Qed.

Example split_without_overlap :
  split "hhttps://https://x" "https://" = ["h"; EmptyString; "x"].
Proof. reflexivity. Qed.

Example split_query :
  split "i.redd.it/abc.png?width=640&s=1" "?"
    = ["i.redd.it/abc.png"; "width=640&s=1"].
Proof. reflexivity. Qed.

Example re_split_path :
  re_split_class dot_or_slash "i.redd.it/abc.png"
    = ["i"; "redd"; "it"; "abc"; "png"].
Proof. reflexivity. Qed.

Example re_split_empty_pieces :
  re_split_class dot_or_slash "/a.."
    = [EmptyString; "a"; EmptyString; EmptyString].
Proof. reflexivity. Qed.

(** ** Facts about splitting strings *)

Section split_facts.

Lemma prefix_app_inv (p s : string) :
  String.prefix p s = true -> exists r, s = p ++ r.
Proof.
  revert s. induction p as [|a p IH]; intros s Hp.
  - exists s. reflexivity.
  - destruct s as [|b s]; simpl in Hp; [discriminate|].
    destruct (ascii_dec a b) as [->|]; [|discriminate].
    destruct (IH _ Hp) as [r ->]. exists r. reflexivity.
Qed.

Lemma prefix_app (p s : string) : String.prefix p (p ++ s) = true.
Proof.
  induction p as [|a p IH]; simpl.
  - destruct s; reflexivity.
  - destruct (ascii_dec a a); [assumption|congruence].
Qed.

Lemma append_empty_r (s : string) : s ++ EmptyString = s.
Proof.
  induction s as [|a s IH]; [reflexivity|].
  change (String a (s ++ EmptyString) = String a s). rewrite IH. reflexivity.
Qed.

Lemma has_char_app (c : ascii) (s1 s2 : string) :
  has_char c (s1 ++ s2) = (has_char c s1 || has_char c s2)%bool.
Proof.
  induction s1 as [|a s1 IH]; simpl; [reflexivity|].
  rewrite IH. apply orb_assoc.
Qed.

Lemma contains_spec (sub s : string) :
  contains sub s = true <-> exists a b, s = a ++ sub ++ b.
Proof.
  split.
  - induction s as [|c s IH]; cbn [contains]; intros Hc.
    + apply prefix_app_inv in Hc as [r ->]. exists EmptyString, r. reflexivity.
    + apply orb_true_iff in Hc as [Hc|Hc].
      * apply prefix_app_inv in Hc as [r ->]. exists EmptyString, r. reflexivity.
      * destruct (IH Hc) as (a & b & ->). exists (String c a), b. reflexivity.
  - intros (a & b & ->). induction a as [|c a IH].
    + change (contains sub (sub ++ b) = true).
      pose proof (prefix_app sub b) as Hp.
      destruct (sub ++ b) as [|c r]; cbn [contains]; rewrite Hp; reflexivity.
    + change (contains sub (String c (a ++ sub ++ b)) = true).
      cbn [contains]. rewrite IH. apply orb_true_r.
Qed.

(** A string without the separator is not cut. *)
Lemma split_from_absent (sep s : string) :
  contains sep s = false -> split_from sep 0 s = [s].
Proof.
  induction s as [|a s IH]; cbn [contains split_from]; intros Hc; [reflexivity|].
  apply orb_false_iff in Hc as [Hp Hc].
  rewrite Hp, (IH Hc). reflexivity.
Qed.

Lemma contains_has_char (c : ascii) (sub s : string) :
  has_char c sub = true -> has_char c s = false -> contains sub s = false.
Proof.
  intros Hsub Hs. destruct (contains sub s) eqn:E; [|reflexivity].
  apply contains_spec in E as (a & b & ->).
  rewrite !has_char_app, Hsub, orb_true_r in Hs. discriminate.
Qed.

(** Splitting at one character is splitting at a class of one. *)
Lemma split_from_char (c : ascii) (s : string) :
  split_from (String c EmptyString) 0 s = re_split_class (Ascii.eqb c) s.
Proof.
  induction s as [|a s IH]; [reflexivity|].
  cbn [split_from re_split_class String.prefix String.length Nat.sub].
  rewrite IH. destruct (ascii_dec c a) as [->|Hne].
  - rewrite Ascii.eqb_refl. destruct s; reflexivity.
  - apply Ascii.eqb_neq in Hne. rewrite Hne. reflexivity.
Qed.

Lemma re_split_class_cons (cls : ascii -> bool) (s : string) :
  exists h t, re_split_class cls s = h :: t.
Proof.
  destruct s as [|a s]; simpl; [eauto|].
  destruct (cls a); [eauto|].
  destruct (re_split_class cls s); simpl; eauto.
Qed.

(** A string without any character of the class stays in one piece. *)
Lemma re_split_class_absent (cls : ascii -> bool) (s : string) :
  (forall c, cls c = true -> has_char c s = false) ->
  re_split_class cls s = [s].
Proof.
  induction s as [|a s IH]; simpl; intros Hs; [reflexivity|].
  destruct (cls a) eqn:Ha.
  - specialize (Hs a Ha). rewrite Ascii.eqb_refl in Hs. discriminate.
  - rewrite IH; [reflexivity|]. intros c Hc.
    specialize (Hs c Hc). apply orb_false_iff in Hs as [_ Hs]. exact Hs.
Qed.

Lemma glue_cons_head (a : ascii) (l1 l2 : list string) :
  l1 <> [] -> glue (cons_head a l1) l2 = cons_head a (glue l1 l2).
Proof.
  destruct l1 as [|x [|y l1]]; intros Hne; [congruence| |reflexivity].
  destruct l2; reflexivity.
Qed.

Lemma re_split_class_app (cls : ascii -> bool) (p s : string) :
  re_split_class cls (p ++ s) =
    glue (re_split_class cls p) (re_split_class cls s).
Proof.
  induction p as [|a p IH].
  - destruct (re_split_class_cons cls s) as (h & t & E).
    change (re_split_class cls s = glue [EmptyString] (re_split_class cls s)).
    rewrite E. reflexivity.
  - change (re_split_class cls (String a (p ++ s)) =
            glue (re_split_class cls (String a p)) (re_split_class cls s)).
    cbn [re_split_class]. rewrite IH.
    destruct (re_split_class_cons cls p) as (h & t & E).
    destruct (cls a).
    + rewrite E. reflexivity.
    + rewrite glue_cons_head; [reflexivity|]. rewrite E. discriminate.
Qed.

(** Splitting at a separator whose first character does not occur in the
    front part of the string. *)
Lemma split_from_app_front (c : ascii) (sep' p s : string) :
  has_char c p = false ->
  split_from (String c sep') 0 (p ++ s) =
    glue [p] (split_from (String c sep') 0 s).
Proof.
  intros Hp. induction p as [|a p IH].
  - change (split_from (String c sep') 0 s =
            glue [EmptyString] (split_from (String c sep') 0 s)).
    destruct (split_from (String c sep') 0 s) eqn:E; [|reflexivity].
    destruct s as [|b s]; [discriminate|].
    cbn [split_from] in E. destruct (String.prefix _ _); [discriminate|].
    destruct (split_from _ 0 s); discriminate.
  - simpl in Hp. apply orb_false_iff in Hp as [Hca Hp].
    change (split_from (String c sep') 0 (String a (p ++ s)) =
            glue [String a p] (split_from (String c sep') 0 s)).
    cbn [split_from String.prefix].
    destruct (ascii_dec c a) as [->|Hne].
    + rewrite Ascii.eqb_refl in Hca. discriminate.
    + rewrite (IH Hp). destruct (split_from _ 0 s); reflexivity.
Qed.

Lemma split_from_skip (sep p s : string) :
  split_from sep (String.length p) (p ++ s) = split_from sep 0 s.
Proof.
  induction p as [|a p IH]; [reflexivity|].
  change (split_from sep (S (String.length p)) (String a (p ++ s)) =
          split_from sep 0 s).
  cbn [split_from]. exact IH.
Qed.

(** Splitting a string that starts with the separator. *)
Lemma split_from_sep_app (c : ascii) (sep' s : string) :
  split_from (String c sep') 0 (String c sep' ++ s) =
    EmptyString :: split_from (String c sep') 0 s.
Proof.
  pose proof (prefix_app (String c sep') s) as Hp.
  change (String c sep' ++ s) with (String c (sep' ++ s)) in *.
  cbn [split_from]. rewrite Hp.
  cbn [String.length Nat.sub]. rewrite Nat.sub_0_r, split_from_skip.
  reflexivity.
Qed.

Lemma split_from_cons (sep : string) (skip : nat) (s : string) :
  exists h t, split_from sep skip s = h :: t.
Proof.
  revert skip. induction s as [|a s IH]; intros skip; cbn [split_from]; [eauto|].
  destruct skip as [|k]; [|apply IH].
  destruct (String.prefix sep (String a s)); [eauto|].
  destruct (IH 0) as (h & t & ->). simpl. eauto.
Qed.

(** A string with the separator is cut in two pieces at least. *)
Lemma split_from_present (c : ascii) (sep' s : string) :
  contains (String c sep') s = true ->
  exists x y t, split_from (String c sep') 0 s = x :: y :: t.
Proof.
  induction s as [|a s IH]; cbn [contains split_from]; intros Hc.
  - discriminate.
  - destruct (String.prefix (String c sep') (String a s)).
    + destruct (split_from_cons (String c sep') (String.length (String c sep') - 1) s)
        as (h & t & ->). eauto.
    + destruct (IH Hc) as (x & y & t & ->). simpl. eauto.
Qed.

End split_facts.

(** ** Facts about the tokens of a URL *)

Section url_facts.

(** The tokens of the URL of an uploaded image whose identifier has no
    ['.'], ['/'] or ['?']. *)
Lemma url_tokens_i_redd_it (id : string) :
  has_char "." id = false -> has_char "/" id = false ->
  has_char "?" id = false ->
  url_tokens (JStr ("https://i.redd.it/" ++ id ++ "?amp=1")) =
    Return ["i"; "redd"; "it"; id].
Proof.
  intros Hdot Hslash Hq. unfold url_tokens, str_split, split.
  change ("https://i.redd.it/" ++ id ++ "?amp=1")
    with ("https://" ++ "i.redd.it/" ++ id ++ "?amp=1").
  rewrite split_from_sep_app, split_from_app_front by reflexivity.
  rewrite split_from_absent.
  2:{ apply (contains_has_char "/"); [reflexivity|].
      rewrite has_char_app, Hslash. reflexivity. }
  cbn [glue index lookup list_lookup mbind outcome_bind].
  rewrite split_from_char, !re_split_class_app.
  rewrite (re_split_class_absent _ id).
  2:{ intros c Hc. apply Ascii.eqb_eq in Hc as <-. exact Hq. }
  cbn [re_split_class glue index lookup list_lookup mbind outcome_bind mret
       outcome_ret Ascii.eqb Bool.eqb cons_head].
  rewrite append_empty_r, re_split_class_app.
  rewrite (re_split_class_absent _ id).
  2:{ intros c Hc. unfold dot_or_slash in Hc.
      apply orb_true_iff in Hc as [Hc|Hc]; apply Ascii.eqb_eq in Hc as ->;
        assumption. }
  reflexivity.
Qed.

(** A URL without ["https://"] has nothing at position 1 of the split. *)
Lemma url_tokens_no_scheme (u : string) :
  contains "https://" u = false ->
  url_tokens (JStr u) = Raise IndexError.
Proof.
  intros Hc. unfold url_tokens, str_split, split.
  rewrite split_from_absent by exact Hc. reflexivity.
Qed.

(** A URL with ["https://"] in it has tokens. *)
Lemma url_tokens_scheme (u : string) :
  contains "https://" u = true ->
  exists tokens, url_tokens (JStr u) = Return tokens.
Proof.
  intros Hc. unfold url_tokens, str_split, split.
  destruct (split_from_present _ _ _ Hc) as (x & y & t & ->).
  cbn [index lookup list_lookup mbind outcome_bind].
  destruct (split_from_cons "?" 0 y) as (h & t' & ->).
  cbn. eauto.
Qed.

End url_facts.

(** ** Facts about the construction of [parsed_media_types] *)

Section parse_facts.

Lemma parse_media_types_dom (items : list (string * json))
    (init parsed : gmap string string) :
  parse_media_types items init = Return parsed ->
  dom parsed = dom init ∪ list_to_set items.*1.
Proof.
  revert init. induction items as [|[media_id value] items IH]; intros init Hp.
  - injection Hp as <-. set_solver.
  - cbn [parse_media_types] in Hp.
    destruct (canonical_kind value) as [kind|e]; [|discriminate].
    apply IH in Hp. rewrite Hp, dom_insert_L. set_solver.
Qed.

(** The keys of the parsed mapping are the keys of the media map. *)
Lemma parse_media_types_keys (items : list (string * json))
    (parsed : gmap string string) (id : string) :
  parse_media_types items ∅ = Return parsed ->
  id ∈ dom parsed <-> id ∈ items.*1.
Proof.
  intros Hp. rewrite (parse_media_types_dom _ _ _ Hp). set_solver.
Qed.

(** Every descriptor was translated when the construction succeeds. *)
Lemma parse_media_types_known (items : list (string * json))
    (init parsed : gmap string string) :
  parse_media_types items init = Return parsed ->
  Forall (fun entry => exists kind, canonical_kind entry.2 = Return kind) items.
Proof.
  revert init. induction items as [|[media_id value] items IH]; intros init Hp.
  - constructor.
  - cbn [parse_media_types] in Hp.
    destruct (canonical_kind value) as [kind|e] eqn:Ek; [|discriminate].
    constructor; [exists kind; exact Ek|]. exact (IH _ Hp).
Qed.

(** The construction fails at the first descriptor that is not translated. *)
Lemma parse_media_types_raise (items : list (string * json))
    (init : gmap string string) :
  Exists (fun entry => forall kind, canonical_kind entry.2 <> Return kind) items ->
  exists media_id value e,
    (media_id, value) ∈ items /\ canonical_kind value = Raise e /\
    parse_media_types items init = Raise e.
Proof.
  revert init. induction items as [|[media_id value] items IH]; intros init Hex.
  - inversion Hex.
  - cbn [parse_media_types].
    destruct (canonical_kind value) as [kind|e] eqn:Ek.
    + apply Exists_cons in Hex as [Hbad|Hex]; [destruct (Hbad kind); exact Ek|].
      destruct (IH (<[media_id := kind]> init) Hex) as (m & v & e & Hin & Hv & Hp).
      exists m, v, e. split; [right; exact Hin|]. split; assumption.
    + exists media_id, value, e. split; [left|]. split; [exact Ek|reflexivity].
Qed.

(** The construction succeeds when every descriptor is translated. *)
Lemma parse_media_types_total (items : list (string * json))
    (init : gmap string string) :
  Forall (fun value => exists kind, canonical_kind value = Return kind) items.*2 ->
  exists parsed, parse_media_types items init = Return parsed.
Proof.
  revert init. induction items as [|[media_id value] items IH]; intros init Hk.
  - exists init. reflexivity.
  - cbn in Hk. apply Forall_cons in Hk as [[kind Hv] Hk].
    cbn [parse_media_types]. rewrite Hv. cbn [mbind outcome_bind].
    apply IH, Hk.
Qed.

End parse_facts.

(** ** Facts about the traversal *)

Section traversal_facts.
Context `{!SetPop}.

Lemma eq_str_true (v : json) (s : string) :
  eq_str v s = true <-> v = JStr s.
Proof.
  destruct v; simpl; try (split; [discriminate|congruence]).
  rewrite String.eqb_eq. split; congruence.
Qed.

Lemma is_link_get (item : json) :
  is_link item <->
  exists tag, get item "e" = Return tag /\ eq_str tag "link" = true.
Proof.
  split.
  - intros (fields & -> & He). exists (JStr "link"). simpl. rewrite He. auto.
  - intros (tag & Hg & Ht). apply eq_str_true in Ht as ->.
    destruct item; try discriminate. exists d. split; [reflexivity|].
    simpl in Hg. destruct (d !! "e") as [v|]; simpl in Hg; congruence.
Qed.

Lemma setitem_inv (document : list json) (i : nat) (v : json) document' r :
  setitem document i v = (document', r) ->
  (document' = document /\ r = Raise IndexError /\ ~ i < length document) \/
  (document' = <[i := v]> document /\ r = Return tt /\ i < length document).
Proof.
  unfold setitem. case_decide; intros [= <- <-]; auto.
Qed.

(** A round of the inner loop either leaves the document as it is or
    assigns the reconciled element of a link item at [index]. *)
Lemma replace_item_inv parsed index item document document' r :
  replace_item parsed index item document = (document', r) ->
  document' = document \/
  exists ce, is_link item /\ correct_element_for parsed item = Return (Some ce) /\
    index < length document /\ document' = <[index := ce]> document /\
    r = Return tt.
Proof.
  unfold replace_item.
  destruct (get item "e") as [tag|e] eqn:Eg; [|intros [= <- <-]; auto].
  destruct (eq_str tag "link") eqn:Et; [|intros [= <- <-]; auto].
  destruct (correct_element_for parsed item) as [[ce|]|e] eqn:Ec;
    [|intros [= <- <-]; auto..].
  intros Hs. apply setitem_inv in Hs as [(-> & _)|(-> & -> & Hlt)]; [auto|].
  right. exists ce. split; [apply is_link_get; eauto|]. auto.
Qed.

Lemma replace_items_inv parsed index items document document' r :
  replace_items parsed index items document = (document', r) ->
  document' = document \/
  exists item ce, item ∈ items /\ is_link item /\
    correct_element_for parsed item = Return (Some ce) /\
    index < length document /\ document' = <[index := ce]> document.
Proof.
  revert document. induction items as [|item items IH]; intros document.
  - intros [= <- <-]. auto.
  - cbn [replace_items].
    destruct (replace_item parsed index item document) as [doc1 [[]|e]] eqn:E1.
    + intros Hrest. apply IH in Hrest.
      apply replace_item_inv in E1 as [->|(ce & Hl & Hc & Hlt & -> & _)].
      * destruct Hrest as [->|(it & ce & Hin & ?)]; [auto|].
        right. exists it, ce. split; [right; exact Hin|]. assumption.
      * destruct Hrest as [->|(it & ce' & Hin & Hl' & Hc' & Hlt' & ->)].
        -- right. exists item, ce. split; [left|]. auto.
        -- right. exists it, ce'. split; [right; exact Hin|].
           rewrite list_insert_insert_eq. auto.
    + intros [= <- <-].
      apply replace_item_inv in E1 as [->|(ce & _ & _ & _ & _ & [=])]. auto.
Qed.

Lemma replace_element_inv parsed index element document document' r :
  replace_element parsed index element document = (document', r) ->
  document' = document \/
  exists ce, replaces parsed element ce /\ index < length document /\
    document' = <[index := ce]> document.
Proof.
  unfold replace_element.
  destruct (get element "c") as [content|e] eqn:Eg; [|intros [= <- <-]; auto].
  destruct content as [| | |s|items|d].
  4:{ destruct (get element "e") as [tag|e]; [|intros [= <- <-]; auto].
      destruct (is_inline_kind tag); intros [= <- <-]; auto. }
  1-3: cbn [iter]; intros [= <- <-]; auto.
  - cbn [iter]. intros Hi.
    apply replace_items_inv in Hi as [->|(item & ce & Hin & Hl & Hc & Hlt & ->)];
      [auto|].
    right. exists ce. split; [|auto]. exists items, item. auto.
  - cbn [iter]. intros Hi.
    apply replace_items_inv in Hi as [->|(item & ce & Hin & Hl & _)]; [auto|].
    apply list_elem_of_fmap in Hin as (k & -> & _).
    destruct Hl as (fields & [=] & _).
Qed.

(** What a reconciled element is made of. *)
Lemma correct_element_for_inv parsed item ce :
  correct_element_for parsed item = Return (Some ce) ->
  exists u tokens id kind,
    getitem item "u" = Return (JStr u) /\
    url_tokens (JStr u) = Return tokens /\
    id ∈ tokens /\ parsed !! id = Some kind /\
    ((get item "t" = Return (JStr u) /\ ce = media_element kind id None) \/
     (exists t, getitem item "t" = Return t /\ t <> JStr u /\
        ce = media_element kind id (Some t))).
Proof.
  unfold correct_element_for. intros Hc.
  destruct (getitem item "u") as [u|e] eqn:Eu; [|discriminate].
  cbn [mbind outcome_bind] in Hc.
  destruct (url_tokens u) as [tokens|e] eqn:Et; [|discriminate].
  cbn [mbind outcome_bind] in Hc.
  destruct u as [| | |u| |]; try discriminate.
  destruct (intersection (dom parsed) tokens) as [|x l] eqn:Ei; [discriminate|].
  pose proof (set_pop_elem x l) as Hin. rewrite <- Ei in Hin at 2.
  apply list_elem_of_filter in Hin as [Hdom Htok].
  apply elem_of_dom in Hdom as [kind Hk].
  rewrite Hk in Hc. cbn [mbind outcome_bind] in Hc.
  destruct (get item "t") as [t|e] eqn:Egt; [|discriminate].
  cbn [mbind outcome_bind] in Hc.
  exists u, tokens, (set_pop (x :: l)), kind.
  do 4 (split; [assumption || reflexivity|]).
  destruct (eq_str t u) eqn:Eeq; cbn [negb] in Hc.
  - injection Hc as <-. apply eq_str_true in Eeq as ->. left. auto.
  - destruct (getitem item "t") as [c|e] eqn:Egi; [|discriminate].
    injection Hc as <-. right. exists c. split; [reflexivity|].
    split; [|reflexivity]. intros ->.
    destruct item; try discriminate. simpl in Egt, Egi.
    destruct (d !! "t"); [|discriminate]. injection Egi as ->.
    injection Egt as <-. simpl in Eeq. rewrite String.eqb_refl in Eeq.
    discriminate.
Qed.

Lemma replace_element_length parsed index element document :
  length (replace_element parsed index element document).1 = length document.
Proof.
  destruct (replace_element parsed index element document) as [doc' r] eqn:E.
  apply replace_element_inv in E as [->|(ce & _ & _ & ->)]; [reflexivity|].
  apply length_insert.
Qed.

(** The traversal keeps the length of the document, and every position
    holds what it held before or the reconciled element of a link item of
    the block that was there. *)
Lemma replace_elements_inv parsed snapshot index document :
  let document' := (replace_elements parsed index snapshot document).1 in
  length document' = length document /\
  forall n, document' !! n = document !! n \/
    exists element ce, index <= n /\ snapshot !! (n - index) = Some element /\
      replaces parsed element ce /\ document' !! n = Some ce.
Proof.
  revert index document.
  induction snapshot as [|element rest IH]; intros index document.
  - simpl. auto.
  - cbn [replace_elements].
    pose proof (replace_element_length parsed index element document) as Hlen.
    destruct (replace_element parsed index element document)
      as [doc1 r] eqn:E1.
    cbn [fst] in Hlen.
    assert (forall n, doc1 !! n = document !! n \/
      exists ce, n = index /\ replaces parsed element ce /\
        doc1 !! n = Some ce) as Hone.
    { intros n. apply replace_element_inv in E1 as [->|(ce & Hr & Hlt & ->)];
        [auto|].
      destruct (decide (n = index)) as [->|Hne].
      - right. exists ce. rewrite list_lookup_insert_eq by assumption. auto.
      - left. apply list_lookup_insert_ne. congruence. }
    assert (forall n, doc1 !! n = document !! n \/
      exists el ce, index <= n /\ (element :: rest) !! (n - index) = Some el /\
        replaces parsed el ce /\ doc1 !! n = Some ce) as Hone'.
    { intros n. destruct (Hone n) as [?|(ce & -> & Hr & Hn)]; [auto|].
      right. exists element, ce. rewrite Nat.sub_diag. auto. }
    destruct r as [[]|e]; [|cbn [fst]; auto].
    destruct (IH (S index) doc1) as [Hlen' Hrest].
    split; [congruence|]. intros n.
    destruct (Hrest n) as [Hn|(el & ce & Hle & Hel & Hr & Hn)].
    + rewrite Hn. apply Hone'.
    + right. exists el, ce. split; [lia|]. split; [|auto].
      replace (n - index) with (S (n - S index)) by lia. exact Hel.
Qed.

(** Whether a round raises does not depend on the contents of the
    document, only on [index] being a position of it. *)
Lemma replace_item_outcome parsed index item doc1 doc2 :
  index < length doc1 -> index < length doc2 ->
  (replace_item parsed index item doc1).2 =
  (replace_item parsed index item doc2).2.
Proof.
  intros H1 H2. unfold replace_item, setitem.
  destruct (get item "e") as [tag|e]; [|reflexivity].
  destruct (eq_str tag "link"); [|reflexivity].
  destruct (correct_element_for parsed item) as [[ce|]|e]; [|reflexivity..].
  rewrite !decide_True by assumption. reflexivity.
Qed.

Lemma replace_item_length parsed index item document :
  length (replace_item parsed index item document).1 = length document.
Proof.
  destruct (replace_item parsed index item document) as [doc' r] eqn:E.
  apply replace_item_inv in E as [->|(ce & _ & _ & _ & -> & _)]; [reflexivity|].
  apply length_insert.
Qed.

Lemma replace_items_outcome parsed index items doc1 doc2 :
  index < length doc1 -> index < length doc2 ->
  (replace_items parsed index items doc1).2 =
  (replace_items parsed index items doc2).2.
Proof.
  revert doc1 doc2. induction items as [|item items IH]; intros doc1 doc2 H1 H2.
  - reflexivity.
  - cbn [replace_items].
    pose proof (replace_item_outcome parsed index item doc1 doc2 H1 H2) as Ho.
    pose proof (replace_item_length parsed index item doc1) as L1.
    pose proof (replace_item_length parsed index item doc2) as L2.
    destruct (replace_item parsed index item doc1) as [d1 r1].
    destruct (replace_item parsed index item doc2) as [d2 r2].
    cbn [fst snd] in *. subst r2.
    destruct r1 as [[]|e]; [|reflexivity].
    apply IH; lia.
Qed.

Lemma replace_element_outcome parsed index element doc1 doc2 :
  index < length doc1 -> index < length doc2 ->
  (replace_element parsed index element doc1).2 =
  (replace_element parsed index element doc2).2.
Proof.
  intros H1 H2. unfold replace_element.
  destruct (get element "c") as [content|e]; [|reflexivity].
  destruct content as [| | |s|items|d]; cbn [iter]; try reflexivity.
  - destruct (get element "e") as [tag|e]; [|reflexivity].
    destruct (is_inline_kind tag); reflexivity.
  - apply replace_items_outcome; assumption.
  - apply replace_items_outcome; assumption.
Qed.

Lemma replace_elements_outcome parsed snapshot index doc1 doc2 :
  index + length snapshot <= length doc1 ->
  index + length snapshot <= length doc2 ->
  (replace_elements parsed index snapshot doc1).2 =
  (replace_elements parsed index snapshot doc2).2.
Proof.
  revert index doc1 doc2.
  induction snapshot as [|element rest IH]; intros index doc1 doc2 H1 H2.
  - reflexivity.
  - cbn [replace_elements length] in *.
    pose proof (replace_element_outcome parsed index element doc1 doc2) as Ho.
    pose proof (replace_element_length parsed index element doc1) as L1.
    pose proof (replace_element_length parsed index element doc2) as L2.
    destruct (replace_element parsed index element doc1) as [d1 r1].
    destruct (replace_element parsed index element doc2) as [d2 r2].
    cbn [fst snd] in *. rewrite <- Ho by lia.
    destruct r1 as [[]|e]; [|reflexivity].
    apply IH; lia.
Qed.

(** The traversal of [pre ++ post] is that of [pre] followed, unless it
    raised, by that of [post]. *)
Lemma replace_elements_app parsed pre post index document :
  replace_elements parsed index (pre ++ post) document =
    match replace_elements parsed index pre document with
    | (document', Return _) =>
        replace_elements parsed (index + length pre) post document'
    | (document', Raise e) => (document', Raise e)
    end.
Proof.
  revert index document. induction pre as [|element pre IH]; intros index document.
  - cbn. rewrite Nat.add_0_r. reflexivity.
  - cbn [replace_elements app length].
    destruct (replace_element parsed index element document) as [d1 [[]|e]];
      [|reflexivity].
    rewrite IH. replace (S index + length pre) with (index + S (length pre)) by lia.
    reflexivity.
Qed.

(** *** Reaching a block *)

(** When the blocks before position [n] raise nothing, the traversal gets
    to the block at [n] with that block still in place, goes on after it
    unless it raises, and never assigns to position [n] again. *)
Lemma replace_elements_focus parsed document n element :
  document !! n = Some element ->
  (replace_elements parsed 0 (take n document) (take n document)).2 = Return tt ->
  exists doc1,
    length doc1 = length document /\ doc1 !! n = Some element /\
    (replace_elements parsed 0 document document).1 !! n =
      (replace_element parsed n element doc1).1 !! n /\
    (forall e, (replace_element parsed n element doc1).2 = Raise e ->
       (replace_elements parsed 0 document document).2 = Raise e).
Proof.
  intros Hn Hpre.
  pose proof (lookup_lt_Some _ _ _ Hn) as Hlt.
  replace (replace_elements parsed 0 document document)
    with (replace_elements parsed 0
            (take n document ++ element :: drop (S n) document) document)
    by (rewrite take_drop_middle; done).
  rewrite replace_elements_app.
  rewrite (replace_elements_outcome parsed (take n document) 0
             (take n document) document) in Hpre
    by (rewrite length_take; lia).
  destruct (replace_elements_inv parsed (take n document) 0 document)
    as [Hlen Hpos].
  destruct (replace_elements parsed 0 (take n document) document)
    as [doc1 r1]. cbn [fst snd] in *. subst r1.
  exists doc1. split; [exact Hlen|].
  assert (doc1 !! n = Some element) as H1.
  { destruct (Hpos n) as [->|(el & ce & _ & Hel & _)]; [exact Hn|].
    rewrite Nat.sub_0_r in Hel. apply lookup_lt_Some in Hel.
    rewrite length_take in Hel. lia. }
  split; [exact H1|].
  rewrite length_take, Nat.min_l by lia. cbn [Nat.add replace_elements].
  destruct (replace_element parsed n element doc1) as [doc2 r2].
  cbn [fst snd]. destruct r2 as [[]|e].
  - split; [|discriminate].
    destruct (replace_elements_inv parsed (drop (S n) document) (S n) doc2)
      as [_ Hpost].
    destruct (Hpost n) as [->|(el & ce & Hle & _)]; [reflexivity|lia].
  - split; [reflexivity|]. intros e' [= ->]. reflexivity.
Qed.

(** *** Raising *)

Lemma replace_items_raise parsed index items item document :
  item ∈ items ->
  (forall d, exists e, (replace_item parsed index item d).2 = Raise e) ->
  exists e, (replace_items parsed index items document).2 = Raise e.
Proof.
  intros Hin Hbad. revert document.
  induction items as [|item' items IH]; intros document; [inversion Hin|].
  cbn [replace_items].
  destruct (replace_item parsed index item' document) as [d1 [[]|e]] eqn:E1;
    [|cbn; eauto].
  apply elem_of_cons in Hin as [<-|Hin]; [|exact (IH Hin d1)].
  destruct (Hbad document) as [e He]. rewrite E1 in He. discriminate.
Qed.

Lemma replace_elements_raise parsed index snapshot element document :
  element ∈ snapshot ->
  (forall i d, exists e, (replace_element parsed i element d).2 = Raise e) ->
  exists e, (replace_elements parsed index snapshot document).2 = Raise e.
Proof.
  intros Hin Hbad. revert index document.
  induction snapshot as [|element' rest IH]; intros index document;
    [inversion Hin|].
  cbn [replace_elements].
  destruct (replace_element parsed index element' document) as [d1 [[]|e]] eqn:E1;
    [|cbn; eauto].
  apply elem_of_cons in Hin as [<-|Hin]; [|exact (IH Hin (S index) d1)].
  destruct (Hbad index document) as [e He]. rewrite E1 in He. discriminate.
Qed.

End traversal_facts.

(** ** Links that match no identifier *)

Section no_match_facts.
Context `{!SetPop}.

Lemma intersection_nil (ids : gset string) (tokens : list string) :
  (forall t, t ∈ tokens -> t ∉ ids) -> intersection ids tokens = [].
Proof.
  intros Hno. unfold intersection.
  induction tokens as [|t tokens IH]; [reflexivity|].
  rewrite filter_cons_False by (apply Hno; left).
  apply IH. intros t' Ht'. apply Hno. right. exact Ht'.
Qed.

Lemma no_match_correct_element parsed keys item :
  (forall k, k ∈ dom parsed -> k ∈ keys) ->
  no_match keys item -> is_link item ->
  correct_element_for parsed item = Return None.
Proof.
  intros Hkeys (fields & -> & Hitem) (fields' & [= <-] & He).
  destruct (Hitem He) as (u & tokens & Hu & Ht & Hno).
  unfold correct_element_for. cbn [getitem]. rewrite Hu.
  cbn [mbind outcome_bind]. rewrite Ht. cbn [mbind outcome_bind].
  rewrite intersection_nil; [reflexivity|].
  intros t Hin Hd. exact (Hno t Hin (Hkeys t Hd)).
Qed.

Lemma no_match_replace_item parsed keys index item document :
  (forall k, k ∈ dom parsed -> k ∈ keys) ->
  no_match keys item ->
  replace_item parsed index item document = (document, Return tt).
Proof.
  intros Hkeys Hitem. unfold replace_item.
  destruct (get item "e") as [tag|e] eqn:Eg.
  - destruct (eq_str tag "link") eqn:Et; [|reflexivity].
    rewrite (no_match_correct_element parsed keys item); auto.
    apply is_link_get. eauto.
  - destruct Hitem as (fields & -> & _). discriminate.
Qed.

Lemma no_match_replace_items parsed keys index items document :
  (forall k, k ∈ dom parsed -> k ∈ keys) ->
  Forall (no_match keys) items ->
  replace_items parsed index items document = (document, Return tt).
Proof.
  intros Hkeys Hitems. induction Hitems as [|item items Hitem _ IH];
    [reflexivity|].
  cbn [replace_items].
  rewrite (no_match_replace_item parsed keys) by assumption. exact IH.
Qed.

Lemma quiet_replace_element parsed keys index element document :
  (forall k, k ∈ dom parsed -> k ∈ keys) ->
  quiet_block keys element ->
  replace_element parsed index element document = (document, Return tt).
Proof.
  intros Hkeys (fields & -> & [(s & Hc & Hk)|(items & Hc & Hitems)]);
    unfold replace_element; cbn [get]; rewrite Hc; cbn [default].
  - rewrite Hk. reflexivity.
  - cbn [iter]. apply (no_match_replace_items parsed keys); assumption.
Qed.

Lemma quiet_replace_elements parsed keys index snapshot document :
  (forall k, k ∈ dom parsed -> k ∈ keys) ->
  Forall (quiet_block keys) snapshot ->
  replace_elements parsed index snapshot document = (document, Return tt).
Proof.
  intros Hkeys Hq. revert index.
  induction Hq as [|element rest Hel _ IH]; intros index; [reflexivity|].
  cbn [replace_elements].
  rewrite (quiet_replace_element parsed keys) by assumption. apply IH.
Qed.


(** When the identifier is the only key among the tokens, it is the one
    [set_pop] returns. *)
Lemma intersection_only (ids : gset string) (tokens : list string)
    (id : string) :
  id ∈ tokens -> id ∈ ids ->
  (forall t, t ∈ tokens -> t ∈ ids -> t = id) ->
  exists x l, intersection ids tokens = x :: l /\ set_pop (x :: l) = id.
Proof.
  intros Htok Hid Honly.
  assert (id ∈ intersection ids tokens) as Hin
    by (apply list_elem_of_filter; auto).
  destruct (intersection ids tokens) as [|x l] eqn:Ei; [inversion Hin|].
  exists x, l. split; [reflexivity|].
  pose proof (set_pop_elem x l) as Hpop. rewrite <- Ei in Hpop at 2.
  apply list_elem_of_filter in Hpop as [Hp1 Hp2]. auto.
Qed.

End no_match_facts.


Lemma well_formed_block_quiet (element : json) :
  well_formed_block element -> quiet_block [] element.
Proof.
  intros (fields & -> & [Hleaf|(items & Hc & Hitems)]); exists fields;
    (split; [reflexivity|]); [left; exact Hleaf|].
  right. exists items. split; [exact Hc|].
  eapply Forall_impl; [exact Hitems|].
  intros item (f & -> & Hl). exists f. split; [reflexivity|].
  intros He. destruct (Hl He) as (u & Hu & Hs).
  destruct (url_tokens_scheme u Hs) as [tokens Ht].
  exists u, tokens. split; [exact Hu|]. split; [exact Ht|].
  intros t _. apply not_elem_of_nil.
Qed.

Section kind_facts.

Lemma media_type_mapping_lookup (kind : string) :
  MEDIA_TYPE_MAPPING !! kind =
    if decide (kind = "Image") then Some "img"
    else if decide (kind = "RedditVideo") then Some "video"
    else if decide (kind = "AnimatedImage") then Some "gif"
    else None.
Proof.
  unfold MEDIA_TYPE_MAPPING.
  repeat case_decide; subst; simplify_map_eq; reflexivity.
Qed.

Lemma media_type_mapping_unknown (kind : string) :
  kind ∉ ["Image"; "RedditVideo"; "AnimatedImage"] ->
  MEDIA_TYPE_MAPPING !! kind = None.
Proof.
  intros Hk. rewrite media_type_mapping_lookup.
  repeat case_decide; subst; try reflexivity; exfalso; apply Hk; set_solver.
Qed.

Lemma media_type_mapping_known (kind canonical : string) :
  MEDIA_TYPE_MAPPING !! kind = Some canonical ->
  kind ∈ ["Image"; "RedditVideo"; "AnimatedImage"].
Proof.
  rewrite media_type_mapping_lookup.
  repeat case_decide; subst; try discriminate; set_solver.
Qed.

Lemma is_inline_kind_true (tag : json) :
  is_inline_kind tag = true <-> tag ∈ [JStr "gif"; JStr "img"; JStr "video"].
Proof.
  unfold is_inline_kind. cbn [existsb].
  rewrite !orb_true_iff, !eq_str_true, !elem_of_cons, elem_of_nil.
  intuition discriminate.
Qed.

Lemma is_inline_kind_false (tag : json) :
  is_inline_kind tag = false <-> tag ∉ [JStr "gif"; JStr "img"; JStr "video"].
Proof.
  rewrite <- is_inline_kind_true. destruct (is_inline_kind tag); split;
    congruence.
Qed.

End kind_facts.

(** ** The properties of the specification *)

Section properties.
Context `{!SetPop}.

(** C7. For every document in which no block contains an inline item tagged
    ["link"], the call leaves the document as it was: the same blocks at the
    same positions.  This holds whatever the media map is and however the
    call ends. *)
Theorem no_link_document_unchanged
    (media_metadata : option (list (string * json))) (document : list json) :
  (forall element items item,
      element ∈ document -> get element "c" = Return (JList items) ->
      item ∈ items -> ~ is_link item) ->
  (_replace_richtext_links media_metadata document).1 = document.
Proof.
  intros Hno. unfold _replace_richtext_links.
  destruct media_metadata as [mm|]; [|reflexivity].
  destruct (parse_media_types mm ∅) as [parsed|e]; [|reflexivity].
  destruct (replace_elements_inv parsed document 0 document) as [_ Hpos].
  apply list_eq. intros n.
  destruct (Hpos n) as [Hn|(element & ce & _ & Hel & Hr & _)]; [exact Hn|].
  rewrite Nat.sub_0_r in Hel.
  destruct Hr as (items & item & Hc & Hin & Hl & _).
  destruct (Hno element items item); auto.
  apply list_elem_of_lookup. eauto.
Qed.

(** C8. For every document and media map, the call only assigns to
    positions of the block list: the list keeps its length, and every
    position holds the block it held before, unless that block had a link
    item that was matched, in which case it holds the element that link
    was reconciled to. *)
Theorem document_frame
    (media_metadata : option (list (string * json))) (document : list json) :
  let document' := (_replace_richtext_links media_metadata document).1 in
  length document' = length document /\
  forall n, document' !! n = document !! n \/
    exists mm parsed element ce,
      media_metadata = Some mm /\
      parse_media_types mm ∅ = Return parsed /\
      document !! n = Some element /\
      replaces parsed element ce /\
      document' !! n = Some ce.
Proof.
  unfold _replace_richtext_links.
  destruct media_metadata as [mm|]; [|cbn; auto].
  destruct (parse_media_types mm ∅) as [parsed|e] eqn:Ep; [|cbn; auto].
  destruct (replace_elements_inv parsed document 0 document) as [Hlen Hpos].
  cbn zeta. split; [exact Hlen|]. intros n.
  destruct (Hpos n) as [Hn|(element & ce & _ & Hel & Hr & Hn)]; [auto|].
  rewrite Nat.sub_0_r in Hel. right. exists mm, parsed, element, ce. auto.
Qed.

(** C4. Whenever the call replaces the block at a position, the new element
    carries an identifier that is a key of the media map and is one of the
    tokens of the URL of a link item of the replaced block; which member of
    the intersection it is depends on [set_pop] alone. *)
Theorem replaced_id_is_key_and_token
    (media_metadata : option (list (string * json))) (document : list json)
    (n : nat) :
  let document' := (_replace_richtext_links media_metadata document).1 in
  document' !! n = document !! n \/
  exists mm element items item u tokens id kind caption,
    media_metadata = Some mm /\
    document !! n = Some element /\
    get element "c" = Return (JList items) /\
    item ∈ items /\ is_link item /\
    getitem item "u" = Return (JStr u) /\
    url_tokens (JStr u) = Return tokens /\
    id ∈ mm.*1 /\ id ∈ tokens /\
    id ∈ intersection (list_to_set mm.*1) tokens /\
    document' !! n = Some (media_element kind id caption).
Proof.
  unfold _replace_richtext_links.
  destruct media_metadata as [mm|]; [|cbn; auto].
  destruct (parse_media_types mm ∅) as [parsed|e] eqn:Ep; [|cbn; auto].
  destruct (replace_elements_inv parsed document 0 document) as [_ Hpos].
  cbn zeta.
  destruct (Hpos n) as [Hn|(element & ce & _ & Hel & Hr & Hn)]; [auto|].
  rewrite Nat.sub_0_r in Hel. right.
  destruct Hr as (items & item & Hc & Hin & Hl & Hce).
  apply correct_element_for_inv in Hce
    as (u & tokens & id & kind & Hu & Ht & Hid & Hk & Hce).
  assert (id ∈ mm.*1) as Hkey.
  { apply (parse_media_types_keys mm parsed id Ep), elem_of_dom. eauto. }
  assert (exists caption, ce = media_element kind id caption) as [caption ->].
  { destruct Hce as [[_ ->]|(t & _ & _ & ->)]; eauto. }
  exists mm, element, items, item, u, tokens, id, kind, caption.
  do 8 (split; [assumption || reflexivity|]). split; [exact Hid|].
  split; [|exact Hn].
  apply list_elem_of_filter. split; [|exact Hid].
  apply elem_of_list_to_set. exact Hkey.
Qed.

(** C10. When the object has a media map and some block of the document has
    a link item whose URL does not contain ["https://"], the round for that
    item raises [IndexError] (position 1 of the split does not exist), and
    the call raises an exception. *)
Theorem link_without_scheme_raises
    (mm : list (string * json)) (document : list json)
    (element : json) (items : list json) (fields : gmap string json)
    (u : string) :
  element ∈ document ->
  get element "c" = Return (JList items) ->
  JDict fields ∈ items ->
  fields !! "e" = Some (JStr "link") ->
  fields !! "u" = Some (JStr u) ->
  contains "https://" u = false ->
  (forall parsed index d,
      replace_item parsed index (JDict fields) d = (d, Raise IndexError)) /\
  exists e, (_replace_richtext_links (Some mm) document).2 = Raise e.
Proof.
  intros Hel Hc Hin He Hu Hno.
  assert (forall parsed index d,
    replace_item parsed index (JDict fields) d = (d, Raise IndexError)) as Hitem.
  { intros parsed index d. unfold replace_item, correct_element_for.
    cbn [get getitem]. rewrite He, Hu. cbn [default eq_str String.eqb].
    cbn [mbind outcome_bind]. rewrite (url_tokens_no_scheme u Hno).
    reflexivity. }
  split; [exact Hitem|]. unfold _replace_richtext_links.
  destruct (parse_media_types mm ∅) as [parsed|e]; [|cbn; eauto].
  apply (replace_elements_raise parsed 0 document element); [exact Hel|].
  intros i d. unfold replace_element. rewrite Hc. cbn [iter].
  apply (replace_items_raise parsed i items (JDict fields)); [exact Hin|].
  intros d'. rewrite Hitem. cbn. eauto.
Qed.

(** C5 (amended). For a block whose content is a string the round checks
    the kind tag; rounds are run only for an object that has a media map.
    With a tag among ["gif"], ["img"] and ["video"] the round returns with
    the document as it is, and the block is still in place after the call.
    With any other tag the round raises [SchemaViolation]; the call of an
    object that has a media map then raises, and what it raises is
    [SchemaViolation] when the descriptors are all translated and the
    blocks before this one raise nothing.  Without a media map the call
    returns with the document as it was, whatever the tag is. *)
Theorem leaf_block_checked
    (mm : list (string * json)) (document : list json) (n : nat)
    (element tag : json) (s : string) :
  document !! n = Some element ->
  get element "c" = Return (JStr s) ->
  get element "e" = Return tag ->
  (tag ∈ [JStr "gif"; JStr "img"; JStr "video"] ->
     (forall parsed index d,
        replace_element parsed index element d = (d, Return tt)) /\
     (_replace_richtext_links (Some mm) document).1 !! n = Some element) /\
  (tag ∉ [JStr "gif"; JStr "img"; JStr "video"] ->
     (forall parsed index d,
        replace_element parsed index element d = (d, Raise SchemaViolation)) /\
     (exists e, (_replace_richtext_links (Some mm) document).2 = Raise e) /\
     (forall parsed,
        parse_media_types mm ∅ = Return parsed ->
        (_replace_richtext_links (Some mm) (take n document)).2 = Return tt ->
        (_replace_richtext_links (Some mm) document).2 = Raise SchemaViolation)) /\
  _replace_richtext_links None document = (document, Return tt).
Proof.
  intros Hn Hc He. split; [|split; [|reflexivity]]; intros Htag.
  - split.
    + intros parsed index d. unfold replace_element. rewrite Hc, He.
      apply is_inline_kind_true in Htag. rewrite Htag. reflexivity.
    + unfold _replace_richtext_links.
      destruct (parse_media_types mm ∅) as [parsed|e]; [|exact Hn].
      destruct (replace_elements_inv parsed document 0 document) as [_ Hpos].
      destruct (Hpos n) as [->|(el & ce & _ & Hel & Hr & _)]; [exact Hn|].
      rewrite Nat.sub_0_r, Hn in Hel. injection Hel as <-.
      destruct Hr as (items & item & Hc' & _). congruence.
  - assert (forall parsed index d,
      replace_element parsed index element d = (d, Raise SchemaViolation))
      as Hround.
    { intros parsed index d. unfold replace_element. rewrite Hc, He.
      apply is_inline_kind_false in Htag. rewrite Htag. reflexivity. }
    split; [exact Hround|]. unfold _replace_richtext_links. split.
    + destruct (parse_media_types mm ∅) as [parsed|e]; [|cbn; eauto].
      apply (replace_elements_raise parsed 0 document element).
      * apply list_elem_of_lookup. eauto.
      * intros i d. rewrite Hround. cbn. eauto.
    + intros parsed Hp Hpre. rewrite Hp in *.
      destruct (replace_elements_focus parsed document n element Hn Hpre)
        as (doc1 & _ & _ & _ & Hraise).
      apply Hraise. rewrite Hround. reflexivity.
Qed.


(** C6 (amended). Without a media map the call returns at once with the
    document as it was.  With an empty media map the call never changes
    the document, and it returns without raising when every block is an
    inline leaf of a known kind or a block of tagged records whose links
    have a URL with ["https://"] in it. *)
Theorem absent_or_empty_media_map :
  (forall document,
     _replace_richtext_links None document = (document, Return tt)) /\
  (forall document,
     (_replace_richtext_links (Some []) document).1 = document) /\
  (forall document,
     Forall well_formed_block document ->
     _replace_richtext_links (Some []) document = (document, Return tt)).
Proof.
  split; [reflexivity|]. split; intros document.
  - unfold _replace_richtext_links. cbn [parse_media_types].
    destruct (replace_elements_inv ∅ document 0 document) as [_ Hpos].
    apply list_eq. intros n.
    destruct (Hpos n) as [Hn|(el & ce & _ & _ & Hr & _)]; [exact Hn|].
    destruct Hr as (items & item & _ & _ & _ & Hce).
    apply correct_element_for_inv in Hce
      as (u & tokens & id & kind & _ & _ & _ & Hk & _).
    rewrite lookup_empty in Hk. discriminate.
  - intros Hwf. unfold _replace_richtext_links. cbn [parse_media_types].
    apply (quiet_replace_elements ∅ []); [set_solver|].
    eapply Forall_impl; [exact Hwf|]. exact well_formed_block_quiet.
Qed.

(** C1 (amended). Let [id] be a key of the media map, with canonical kind
    [kind], that contains none of ['.'], ['/'] and ['?'], and let none of
    the host tokens ["i"], ["redd"], ["it"] be another key.  When every
    descriptor is translated and the blocks before position [n] raise
    nothing, a block at [n] whose only inline item is a link with URL
    ["https://i.redd.it/{id}?amp=1"] and display text [t] is replaced by
    the leaf of kind [kind] and identifier [id], without a caption when
    [t] is the URL and with caption [t] otherwise. *)
Theorem uploaded_media_link_replaced
    (mm : list (string * json)) (parsed : gmap string string)
    (id kind t : string) (document : list json) (n : nat)
    (element : json) (fields : gmap string json) :
  let url := "https://i.redd.it/" ++ id ++ "?amp=1" in
  parse_media_types mm ∅ = Return parsed ->
  parsed !! id = Some kind ->
  has_char "." id = false -> has_char "/" id = false ->
  has_char "?" id = false ->
  (forall k, k ∈ ["i"; "redd"; "it"] -> k ∈ mm.*1 -> k = id) ->
  document !! n = Some element ->
  get element "c" = Return (JList [JDict fields]) ->
  fields !! "e" = Some (JStr "link") ->
  fields !! "u" = Some (JStr url) ->
  fields !! "t" = Some (JStr t) ->
  (_replace_richtext_links (Some mm) (take n document)).2 = Return tt ->
  (_replace_richtext_links (Some mm) document).1 !! n =
    Some (media_element kind id
            (if String.eqb t url then None else Some (JStr t))).
Proof.
  intros url Hp Hk Hdot Hslash Hq Hhost Hn Hc He Hu Ht Hpre.
  unfold _replace_richtext_links in *. rewrite Hp in *.
  destruct (replace_elements_focus parsed document n element Hn Hpre)
    as (doc1 & Hlen & H1 & Hfinal & _).
  rewrite Hfinal. clear Hfinal Hpre.
  pose proof (lookup_lt_Some _ _ _ Hn) as Hlt.
  pose proof (url_tokens_i_redd_it id Hdot Hslash Hq) as Htok.
  fold url in Htok.
  destruct (intersection_only (dom parsed) ["i"; "redd"; "it"; id] id)
    as (x & l & Hi & Hpop).
  { set_solver. }
  { apply elem_of_dom. eauto. }
  { intros k Hin Hd.
    apply (parse_media_types_keys mm parsed k Hp) in Hd.
    rewrite !elem_of_cons, elem_of_nil in Hin.
    destruct Hin as [->|[->|[->|[->|[]]]]]; try reflexivity;
      apply Hhost; auto; set_solver. }
  unfold replace_element. rewrite Hc. cbn [iter replace_items].
  unfold replace_item, correct_element_for. cbn [get getitem].
  rewrite He, Hu, Ht.
  cbn [default from_option Datatypes.id mbind outcome_bind].
  rewrite Htok. cbn [mbind outcome_bind].
  rewrite Hi, Hpop, Hk.
  cbn [mbind outcome_bind eq_str String.eqb Ascii.eqb Bool.eqb].
  unfold setitem.
  destruct (String.eqb t url); cbn [negb mbind outcome_bind];
    rewrite decide_True by lia; cbn [fst];
    rewrite list_lookup_insert_eq by lia; reflexivity.
Qed.

End properties.

Section edit_properties.
Context `{!SetPop} {Media : Type}.
Variable INLINE_MEDIA_PATTERN_search : string -> bool.
Variable _upload_inline_media : Media -> string.
Variable format : string -> list (string * string) -> string.
Variable _convert_to_fancypants : string -> list json.
Variable dumps : list json -> string.
Variable API_PATH_edit : string.

Lemma uploads_no_post (inline_media : option (list (string * Media)))
    (path : string) (data : gmap string json) :
  Post path data ∉ uploads inline_media.
Proof.
  unfold uploads. destruct (truthy inline_media); [|apply not_elem_of_nil].
  intros Hin. apply list_elem_of_fmap in Hin as (entry & [=] & _).
Qed.

(** C9. In an edit that asks to preserve inline media and goes through the
    rich-text conversion, an exception of the reconciler ends the edit: the
    calls made are the uploads and the conversion, the edit raises the same
    exception, and no request is posted. *)
Theorem reconciler_failure_prevents_post
    (fullname : string) (validate_on_submit : bool)
    (media_metadata : option (list (string * json))) (body : string)
    (inline_media : option (list (string * Media))) (e : exn) :
  let body' := formatted _upload_inline_media format body inline_media in
  let result :=
    edit INLINE_MEDIA_PATTERN_search _upload_inline_media format
      _convert_to_fancypants dumps API_PATH_edit
      fullname validate_on_submit media_metadata body true inline_media in
  is_richtext_json INLINE_MEDIA_PATTERN_search body inline_media = true ->
  (_replace_richtext_links media_metadata (_convert_to_fancypants body')).2
    = Raise e ->
  result.1 = (uploads inline_media ++ [ConvertToFancypants body'])%list /\
  result.2 = Raise e /\
  forall path data, Post path data ∉ result.1.
Proof.
  intros body' result Hrich Hraise. subst result. unfold edit.
  rewrite Hrich. fold body'.
  destruct (_replace_richtext_links media_metadata
              (_convert_to_fancypants body')) as [doc' r].
  cbn [snd] in Hraise. subst r. cbn [fst snd].
  split; [reflexivity|]. split; [reflexivity|].
  intros path data Hin. apply elem_of_app in Hin as [Hin|Hin].
  - exact (uploads_no_post inline_media path data Hin).
  - apply list_elem_of_singleton in Hin. discriminate.
Qed.

(** When the reconciler returns, the request is posted last and carries
    the reconciled document. *)
Lemma edit_posts_reconciled_document
    (fullname : string) (validate_on_submit : bool)
    (media_metadata : option (list (string * json))) (body : string)
    (inline_media : option (list (string * Media))) (document' : list json) :
  let body' := formatted _upload_inline_media format body inline_media in
  is_richtext_json INLINE_MEDIA_PATTERN_search body inline_media = true ->
  _replace_richtext_links media_metadata (_convert_to_fancypants body')
    = (document', Return tt) ->
  edit INLINE_MEDIA_PATTERN_search _upload_inline_media format
    _convert_to_fancypants dumps API_PATH_edit
    fullname validate_on_submit media_metadata body true inline_media =
  ((uploads inline_media ++
     [ConvertToFancypants body';
      Post API_PATH_edit
        (<["richtext_json" := JStr (dumps document')]>
           {[ "thing_id" := JStr fullname;
              "validate_on_submit" := JBool validate_on_submit ]})])%list,
   Return tt).
Proof.
  intros body' Hrich Hret. unfold edit. rewrite Hrich. fold body'.
  rewrite Hret. rewrite <- app_assoc. reflexivity.
Qed.

End edit_properties.

(** C1, counterexample: the identifier ["a.b"] is a key of the media map,
    the block has one link with the URL made from it, and the call returns
    with the block still in place: the tokens are ["a"] and ["b"]. *)
Lemma dotted_identifier_not_replaced :
  let mm := [("a.b", descriptor "Image")] in
  let url := "https://i.redd.it/a.b?amp=1" in
  let document := [par [link url url]] in
  "a.b" ∈ mm.*1 /\
  canonical_kind (descriptor "Image") = Return "img" /\
  url_tokens (JStr url) = Return ["i"; "redd"; "it"; "a"; "b"] /\
  @_replace_richtext_links first_pop (Some mm) document
    = (document, Return tt) /\
  (@_replace_richtext_links first_pop (Some mm) document).1 !! 0
    <> Some (media_element "img" "a.b" None).
Proof.
  cbn zeta. split; [apply list_elem_of_here|].
  split; [vm_compute; reflexivity|]. split; [vm_compute; reflexivity|].
  split; [vm_compute; reflexivity|].
  vm_compute. discriminate.
Qed.


(** C5, counterexample: a block whose content is a string and whose tag is
    ["table"] is not checked when the object has no media map, and the call
    returns; with a media map, the call raises something else than
    [SchemaViolation] when a descriptor has an unknown kind or an earlier
    block has a link without ["https://"]. *)
Lemma leaf_of_unknown_kind_not_always_schema_violation :
  let block := leaf "table" "abc" "a caption" in
  get block "c" = Return (JStr "a caption") /\
  get block "e" = Return (JStr "table") /\
  (JStr "table" ∉ [JStr "gif"; JStr "img"; JStr "video"]) /\
  @_replace_richtext_links first_pop None [block] = ([block], Return tt) /\
  @_replace_richtext_links first_pop (Some [("xyz", descriptor "Sticker")])
      [block]
    = ([block], Raise (UnknownMediaKind "Sticker")) /\
  @_replace_richtext_links first_pop (Some one_image)
      [par [link "http://example.com/" "a page"]; block]
    = ([par [link "http://example.com/" "a page"]; block], Raise IndexError).
Proof.
  cbn zeta. split; [vm_compute; reflexivity|]. split; [vm_compute; reflexivity|].
  split.
  { rewrite !elem_of_cons, elem_of_nil. intros [H|[H|[H|[]]]]; discriminate. }
  repeat split; vm_compute; reflexivity.
Qed.

(** C6, counterexample: with an empty media map the call still raises, on
    a leaf of an unexpected kind and on a link without ["https://"]. *)
Lemma empty_media_map_raises :
  @_replace_richtext_links first_pop (Some []) [leaf "table" "abc" "caption"]
    = ([leaf "table" "abc" "caption"], Raise SchemaViolation) /\
  @_replace_richtext_links first_pop (Some [])
      [par [link "http://example.com/" "a page"]]
    = ([par [link "http://example.com/" "a page"]], Raise IndexError).
Proof.
  split; vm_compute; reflexivity.
Qed.

(** Which identifier is taken when two keys are tokens of the URL depends
    on [set_pop]. *)
Example choice_of_identifier :
  let mm := [("abc", descriptor "Image"); ("it", descriptor "RedditVideo")] in
  let url := "https://i.redd.it/abc.png" in
  @_replace_richtext_links first_pop (Some mm) [par [link url url]]
    = ([media_element "video" "it" None], Return tt) /\
  @_replace_richtext_links last_pop (Some mm) [par [link url url]]
    = ([media_element "img" "abc" None], Return tt).
Proof.
  split; vm_compute; reflexivity.
Qed.

(** ** The properties at concrete inputs *)

Ltac lookup_in_sample :=
  repeat match goal with
  | H : _ ∈ [] |- _ => inversion H
  | H : _ ∈ _ :: _ |- _ => apply elem_of_cons in H as [->|H]
  end.

Ltac not_in_sample H :=
  rewrite ?elem_of_cons, elem_of_nil in H;
  repeat (destruct H as [H|H]; [discriminate|]); exact H.

Lemma no_link_document_unchanged_witness :
  (@_replace_richtext_links first_pop (Some one_image)
     [par [text "hello"]; leaf "img" "abc" "a caption"]).1
  = [par [text "hello"]; leaf "img" "abc" "a caption"].
Proof.
  apply (@no_link_document_unchanged first_pop).
  intros element items item Hel Hc Hin (fields & Hitem & He).
  lookup_in_sample; vm_compute in Hc; try discriminate.
  injection Hc as <-. lookup_in_sample.
  injection Hitem as <-. vm_compute in He. discriminate.
Defined.

Lemma link_without_scheme_raises_witness :
  let fields : gmap string json :=
    {[ "e" := JStr "link"; "u" := JStr "http://example.com/";
       "t" := JStr "a page" ]} in
  (forall parsed index d,
     @replace_item first_pop parsed index (JDict fields) d
       = (d, Raise IndexError)) /\
  exists e,
    (@_replace_richtext_links first_pop (Some one_image)
       [par [text "see "; JDict fields]]).2 = Raise e.
Proof.
  intros fields.
  apply (@link_without_scheme_raises first_pop one_image
           [par [text "see "; JDict fields]]
           (par [text "see "; JDict fields]) [text "see "; JDict fields]
           fields "http://example.com/").
  - apply list_elem_of_here.
  - vm_compute. reflexivity.
  - apply list_elem_of_further, list_elem_of_here.
  - vm_compute. reflexivity.
  - vm_compute. reflexivity.
  - vm_compute. reflexivity.
Defined.

Lemma leaf_block_checked_witness :
  let good := [par [text "hello"]; leaf "img" "abc" "a caption"] in
  let bad := [par [text "hello"]; leaf "table" "abc" "a caption"] in
  (@_replace_richtext_links first_pop (Some one_image) good).1 !! 1
    = Some (leaf "img" "abc" "a caption") /\
  (@_replace_richtext_links first_pop (Some one_image) bad).2
    = Raise SchemaViolation /\
  @_replace_richtext_links first_pop None bad = (bad, Return tt).
Proof.
  intros good bad. split; [|split].
  - apply (proj1 (@leaf_block_checked first_pop one_image good 1
                    (leaf "img" "abc" "a caption") (JStr "img") "a caption"
                    eq_refl eq_refl eq_refl)).
    rewrite !elem_of_cons. auto.
  - apply (proj1 (proj2 (@leaf_block_checked first_pop one_image bad 1
                    (leaf "table" "abc" "a caption") (JStr "table") "a caption"
                    eq_refl eq_refl eq_refl))) with (parsed := {[ "abc" := "img" ]}).
    + intros Hin. not_in_sample Hin.
    + vm_compute. reflexivity.
    + vm_compute. reflexivity.
  - apply (proj2 (proj2 (@leaf_block_checked first_pop one_image bad 1
                    (leaf "table" "abc" "a caption") (JStr "table") "a caption"
                    eq_refl eq_refl eq_refl))).
Defined.


Lemma absent_or_empty_media_map_witness :
  let document :=
    [par [text "see "; link "https://example.com/page" "a page"];
     leaf "gif" "abc" "a caption"] in
  @_replace_richtext_links first_pop (Some []) document
    = (document, Return tt).
Proof.
  intros document.
  apply (proj2 (proj2 (@absent_or_empty_media_map first_pop))).
  repeat constructor.
  - eexists. split; [reflexivity|]. right. eexists.
    split; [vm_compute; reflexivity|]. repeat constructor.
    + eexists. split; [reflexivity|]. vm_compute. discriminate.
    + eexists. split; [reflexivity|]. intros _.
      exists "https://example.com/page". split; vm_compute; reflexivity.
  - eexists. split; [reflexivity|]. left. exists "a caption".
    split; vm_compute; reflexivity.
Defined.

Lemma uploaded_media_link_replaced_witness :
  let url := "https://i.redd.it/abc?amp=1" in
  (@_replace_richtext_links first_pop (Some one_image)
     [par [text "hello"]; par [link url url]]).1 !! 1
    = Some (media_element "img" "abc" None) /\
  (@_replace_richtext_links first_pop (Some one_image)
     [par [text "hello"]; par [link url "caption text"]]).1 !! 1
    = Some (media_element "img" "abc" (Some (JStr "caption text"))).
Proof.
  intros url. split.
  - apply (@uploaded_media_link_replaced first_pop one_image
             {[ "abc" := "img" ]} "abc" "img" url
             [par [text "hello"]; par [link url url]] 1 (par [link url url])
             {[ "e" := JStr "link"; "u" := JStr url; "t" := JStr url ]});
      try (vm_compute; reflexivity).
    intros k _ Hk. apply list_elem_of_singleton in Hk. exact Hk.
  - apply (@uploaded_media_link_replaced first_pop one_image
             {[ "abc" := "img" ]} "abc" "img" "caption text"
             [par [text "hello"]; par [link url "caption text"]] 1
             (par [link url "caption text"])
             {[ "e" := JStr "link"; "u" := JStr url;
                "t" := JStr "caption text" ]});
      try (vm_compute; reflexivity).
    intros k _ Hk. apply list_elem_of_singleton in Hk. exact Hk.
Defined.

Lemma reconciler_failure_prevents_post_witness :
  let converted := [leaf "table" "abc" "a caption"] in
  let result :=
    @edit first_pop string (fun _ => true) (fun media => media)
      (fun body _ => body) (fun _ => converted) (fun _ => "[]")
      "api/editusertext/" "t1_dkk4qjd" true (Some one_image)
      "an edited body" true None in
  result.1 = [ConvertToFancypants "an edited body"] /\
  result.2 = Raise SchemaViolation /\
  forall path data, Post path data ∉ result.1.
Proof.
  intros converted result.
  apply (@reconciler_failure_prevents_post first_pop string (fun _ => true)
           (fun media => media) (fun body _ => body) (fun _ => converted)
           (fun _ => "[]") "api/editusertext/" "t1_dkk4qjd" true
           (Some one_image) "an edited body" None SchemaViolation).
  - reflexivity.
  - vm_compute. reflexivity.
Defined.

(** * Further properties of the code *)

(** ** More facts about the traversal *)

Section composition_facts.
Context `{!SetPop}.
Local Open Scope list_scope.

(** A round at position [length front + i] of [front ++ doc] is the round at
    [i] of [doc], with [front] in front of it. *)
Lemma replace_item_shift parsed front i item doc :
  replace_item parsed (length front + i) item (front ++ doc) =
    (front ++ (replace_item parsed i item doc).1,
     (replace_item parsed i item doc).2).
Proof.
  unfold replace_item, setitem.
  destruct (get item "e") as [tag|e]; [|reflexivity].
  destruct (eq_str tag "link"); [|reflexivity].
  destruct (correct_element_for parsed item) as [[ce|]|e]; [|reflexivity..].
  rewrite length_app.
  destruct (decide (i < length doc)).
  - rewrite decide_True by lia. cbn [fst snd]. rewrite insert_app_r. reflexivity.
  - rewrite decide_False by lia. reflexivity.
Qed.

Lemma replace_items_shift parsed front i items doc :
  replace_items parsed (length front + i) items (front ++ doc) =
    (front ++ (replace_items parsed i items doc).1,
     (replace_items parsed i items doc).2).
Proof.
  revert doc. induction items as [|item items IH]; intros doc; [reflexivity|].
  cbn [replace_items]. rewrite replace_item_shift.
  destruct (replace_item parsed i item doc) as [d1 [[]|e]]; cbn [fst snd];
    [apply IH|reflexivity].
Qed.

Lemma replace_element_shift parsed front i element doc :
  replace_element parsed (length front + i) element (front ++ doc) =
    (front ++ (replace_element parsed i element doc).1,
     (replace_element parsed i element doc).2).
Proof.
  unfold replace_element.
  destruct (get element "c") as [content|e]; [|reflexivity].
  destruct content as [| | |s|items|d]; cbn [iter]; try reflexivity.
  - destruct (get element "e") as [tag|e]; [|reflexivity].
    destruct (is_inline_kind tag); reflexivity.
  - apply replace_items_shift.
  - apply replace_items_shift.
Qed.

Lemma replace_elements_shift parsed front i snapshot doc :
  replace_elements parsed (length front + i) snapshot (front ++ doc) =
    (front ++ (replace_elements parsed i snapshot doc).1,
     (replace_elements parsed i snapshot doc).2).
Proof.
  revert i doc. induction snapshot as [|element rest IH]; intros i doc;
    [reflexivity|].
  cbn [replace_elements]. rewrite replace_element_shift.
  destruct (replace_element parsed i element doc) as [d1 [[]|e]]; cbn [fst snd];
    [|reflexivity].
  replace (S (length front + i)) with (length front + S i) by lia. apply IH.
Qed.

(** A round at a position of [doc] does not look at what follows [doc]. *)
Lemma replace_item_back parsed i item doc back :
  i < length doc ->
  replace_item parsed i item (doc ++ back) =
    ((replace_item parsed i item doc).1 ++ back,
     (replace_item parsed i item doc).2).
Proof.
  intros Hi. unfold replace_item, setitem.
  destruct (get item "e") as [tag|e]; [|reflexivity].
  destruct (eq_str tag "link"); [|reflexivity].
  destruct (correct_element_for parsed item) as [[ce|]|e]; [|reflexivity..].
  rewrite length_app, !decide_True by lia. cbn [fst snd].
  rewrite insert_app_l by lia. reflexivity.
Qed.

Lemma replace_items_back parsed i items doc back :
  i < length doc ->
  replace_items parsed i items (doc ++ back) =
    ((replace_items parsed i items doc).1 ++ back,
     (replace_items parsed i items doc).2).
Proof.
  revert doc. induction items as [|item items IH]; intros doc Hi; [reflexivity|].
  cbn [replace_items]. rewrite replace_item_back by exact Hi.
  pose proof (replace_item_length parsed i item doc) as Hlen.
  destruct (replace_item parsed i item doc) as [d1 [[]|e]]; cbn [fst snd] in *;
    [apply IH; lia|reflexivity].
Qed.

Lemma replace_element_back parsed i element doc back :
  i < length doc ->
  replace_element parsed i element (doc ++ back) =
    ((replace_element parsed i element doc).1 ++ back,
     (replace_element parsed i element doc).2).
Proof.
  intros Hi. unfold replace_element.
  destruct (get element "c") as [content|e]; [|reflexivity].
  destruct content as [| | |s|items|d]; cbn [iter]; try reflexivity.
  - destruct (get element "e") as [tag|e]; [|reflexivity].
    destruct (is_inline_kind tag); reflexivity.
  - apply replace_items_back, Hi.
  - apply replace_items_back, Hi.
Qed.

Lemma replace_elements_back parsed i snapshot doc back :
  i + length snapshot <= length doc ->
  replace_elements parsed i snapshot (doc ++ back) =
    ((replace_elements parsed i snapshot doc).1 ++ back,
     (replace_elements parsed i snapshot doc).2).
Proof.
  revert i doc. induction snapshot as [|element rest IH]; intros i doc Hi;
    [reflexivity|].
  cbn [replace_elements length] in *.
  rewrite replace_element_back by lia.
  pose proof (replace_element_length parsed i element doc) as Hlen.
  destruct (replace_element parsed i element doc) as [d1 [[]|e]];
    cbn [fst snd] in *; [apply IH; lia|reflexivity].
Qed.

(** X1. Reconciling two documents put end to end is reconciling the first
    and then, unless it raised, the second: the blocks are treated one by one
    from the front, and an exception leaves the blocks already replaced as
    they are and the blocks not yet visited untouched. *)
Theorem reconcile_concatenation
    (media_metadata : option (list (string * json))) (d1 d2 : list json) :
  _replace_richtext_links media_metadata (d1 ++ d2) =
    match _replace_richtext_links media_metadata d1 with
    | (d1', Return _) =>
        (d1' ++ (_replace_richtext_links media_metadata d2).1,
         (_replace_richtext_links media_metadata d2).2)
    | (d1', Raise e) => (d1' ++ d2, Raise e)
    end.
Proof.
  unfold _replace_richtext_links.
  destruct media_metadata as [mm|]; [|reflexivity].
  destruct (parse_media_types mm ∅) as [parsed|e]; [|reflexivity].
  rewrite replace_elements_app, replace_elements_back by (cbn; lia).
  pose proof (proj1 (replace_elements_inv parsed d1 0 d1)) as Hlen.
  destruct (replace_elements parsed 0 d1 d1) as [d1' [[]|e]]; cbn [fst snd] in *;
    [|reflexivity].
  rewrite <- Hlen, <- (Nat.add_0_r (length d1')).
  rewrite Nat.add_0_l, replace_elements_shift. reflexivity.
Qed.

End composition_facts.

(** ** More facts about [parsed_media_types] *)

Section parsed_facts.

Lemma canonical_kind_range (value : json) (kind : string) :
  canonical_kind value = Return kind -> kind ∈ ["img"; "video"; "gif"].
Proof.
  unfold canonical_kind. destruct (getitem value "e") as [k|e]; [|discriminate].
  cbn [mbind outcome_bind]. destruct k; try discriminate. cbn [media_type_lookup].
  rewrite media_type_mapping_lookup.
  repeat case_decide; intros [= <-]; set_solver.
Qed.

Lemma parse_media_types_other (items : list (string * json))
    (init parsed : gmap string string) (id : string) :
  parse_media_types items init = Return parsed ->
  id ∉ items.*1 -> parsed !! id = init !! id.
Proof.
  revert init. induction items as [|[m v] items IH]; intros init Hp Hid.
  - injection Hp as <-. reflexivity.
  - cbn [parse_media_types] in Hp.
    destruct (canonical_kind v) as [k|e]; [|discriminate].
    cbn [mbind outcome_bind] in Hp. cbn in Hid.
    apply not_elem_of_cons in Hid as [Hne Hid].
    rewrite (IH _ Hp Hid). apply lookup_insert_ne. congruence.
Qed.

Lemma parse_media_types_lookup (items : list (string * json))
    (init parsed : gmap string string) (id kind : string) :
  parse_media_types items init = Return parsed ->
  parsed !! id = Some kind ->
  init !! id = Some kind \/
  exists value, (id, value) ∈ items /\ canonical_kind value = Return kind.
Proof.
  revert init. induction items as [|[m v] items IH]; intros init Hp Hk.
  - injection Hp as <-. auto.
  - cbn [parse_media_types] in Hp.
    destruct (canonical_kind v) as [k|e] eqn:Ev; [|discriminate].
    cbn [mbind outcome_bind] in Hp.
    destruct (IH _ Hp Hk) as [Hi|(value & Hin & Hv)].
    + destruct (decide (m = id)) as [->|Hne].
      * rewrite lookup_insert_eq in Hi. injection Hi as ->.
        right. exists v. split; [left|exact Ev].
      * rewrite lookup_insert_ne in Hi by exact Hne. auto.
    + right. exists value. split; [right; exact Hin|exact Hv].
Qed.

(** X2. When the construction of [parsed_media_types] succeeds, every entry
    of the result is the translation of a descriptor stored under the same
    identifier, and, the identifiers of a dict being distinct, every
    descriptor has its translation stored under its identifier. *)
Theorem parsed_media_types_correspond
    (mm : list (string * json)) (parsed : gmap string string) :
  parse_media_types mm ∅ = Return parsed ->
  (forall id kind, parsed !! id = Some kind ->
     exists value, (id, value) ∈ mm /\ canonical_kind value = Return kind) /\
  (NoDup mm.*1 ->
   forall id value, (id, value) ∈ mm ->
     exists kind, canonical_kind value = Return kind /\
       parsed !! id = Some kind).
Proof.
  intros Hp. split.
  - intros id kind Hk.
    destruct (parse_media_types_lookup mm ∅ parsed id kind Hp Hk)
      as [He|Hin]; [|exact Hin].
    rewrite lookup_empty in He. discriminate.
  - revert Hp. generalize (∅ : gmap string string) as init.
    induction mm as [|[m v] mm IH]; intros init Hp Hnd id value Hin;
      [inversion Hin|].
    cbn [parse_media_types] in Hp.
    destruct (canonical_kind v) as [k|e] eqn:Ev; [|discriminate].
    cbn [mbind outcome_bind] in Hp. cbn in Hnd.
    apply NoDup_cons in Hnd as [Hm Hnd].
    apply elem_of_cons in Hin as [[= -> ->]|Hin].
    + exists k. split; [exact Ev|].
      rewrite (parse_media_types_other mm _ parsed m Hp Hm).
      apply lookup_insert_eq.
    + exact (IH _ Hp Hnd id value Hin).
Qed.

End parsed_facts.

Section kinds_property.
Context `{!SetPop}.

(** With distinct identifiers, what the construction stores under the
    identifier of a descriptor is the translation of that descriptor. *)
Lemma parse_media_types_stored (items : list (string * json))
    (init parsed : gmap string string) (id : string) (value : json) :
  NoDup items.*1 ->
  parse_media_types items init = Return parsed ->
  (id, value) ∈ items ->
  exists kind, canonical_kind value = Return kind /\ parsed !! id = Some kind.
Proof.
  revert init. induction items as [|[m v] items IH]; intros init Hnd Hp Hin;
    [inversion Hin|].
  cbn [parse_media_types] in Hp.
  destruct (canonical_kind v) as [k|e] eqn:Ev; [|discriminate].
  cbn [mbind outcome_bind] in Hp. cbn in Hnd.
  apply NoDup_cons in Hnd as [Hm Hnd].
  apply elem_of_cons in Hin as [[= -> ->]|Hin].
  - exists k. split; [exact Ev|].
    rewrite (parse_media_types_other items _ parsed m Hp Hm).
    apply lookup_insert_eq.
  - exact (IH _ Hnd Hp Hin).
Qed.

Lemma canonical_kind_known (fields : gmap string json) (kind : string) :
  fields !! "e" = Some (JStr kind) ->
  kind ∈ ["Image"; "RedditVideo"; "AnimatedImage"] ->
  exists canonical, canonical_kind (JDict fields) = Return canonical.
Proof.
  intros He Hk. unfold canonical_kind. cbn [getitem]. rewrite He.
  cbn [mbind outcome_bind media_type_lookup].
  rewrite media_type_mapping_lookup.
  rewrite !elem_of_cons, elem_of_nil in Hk.
  destruct Hk as [->|[->|[->|[]]]]; cbn; eauto.
Qed.

(** C2. The table translates ["Image"] to ["img"], ["RedditVideo"] to
    ["video"] and ["AnimatedImage"] to ["gif"].  For a media map whose
    descriptors all have one of these kinds, the construction succeeds, the
    derived mapping has exactly the identifiers of the media map, it holds
    under each identifier the translation of the kind of its descriptor, and
    it is the mapping the traversal uses.  When some descriptor has another
    kind, the construction raises, the call raises that same exception
    whatever the document is, and the document is as it was; when all
    descriptors are well formed the exception is [UnknownMediaKind] for a
    kind outside the table. *)
Theorem media_kinds_translated_or_raise :
  (forall fields, fields !! "e" = Some (JStr "Image") ->
     canonical_kind (JDict fields) = Return "img") /\
  (forall fields, fields !! "e" = Some (JStr "RedditVideo") ->
     canonical_kind (JDict fields) = Return "video") /\
  (forall fields, fields !! "e" = Some (JStr "AnimatedImage") ->
     canonical_kind (JDict fields) = Return "gif") /\
  (forall mm,
     NoDup mm.*1 ->
     Forall (fun value => exists fields kind,
               value = JDict fields /\ fields !! "e" = Some (JStr kind) /\
               kind ∈ ["Image"; "RedditVideo"; "AnimatedImage"]) mm.*2 ->
     exists parsed,
       parse_media_types mm ∅ = Return parsed /\
       (forall id, id ∈ dom parsed <-> id ∈ mm.*1) /\
       (forall id fields, (id, JDict fields) ∈ mm ->
          (fields !! "e" = Some (JStr "Image") ->
             parsed !! id = Some "img") /\
          (fields !! "e" = Some (JStr "RedditVideo") ->
             parsed !! id = Some "video") /\
          (fields !! "e" = Some (JStr "AnimatedImage") ->
             parsed !! id = Some "gif")) /\
       (forall document,
          _replace_richtext_links (Some mm) document
            = replace_elements parsed 0 document document)) /\
  (forall mm media_id fields kind,
     (media_id, JDict fields) ∈ mm ->
     fields !! "e" = Some (JStr kind) ->
     kind ∉ ["Image"; "RedditVideo"; "AnimatedImage"] ->
     exists e,
       parse_media_types mm ∅ = Raise e /\
       (forall document,
          _replace_richtext_links (Some mm) document = (document, Raise e)) /\
       (Forall well_formed_descriptor mm.*2 ->
        exists kind' media_id' fields',
          e = UnknownMediaKind kind' /\
          (kind' ∉ ["Image"; "RedditVideo"; "AnimatedImage"]) /\
          (media_id', JDict fields') ∈ mm /\
          fields' !! "e" = Some (JStr kind'))).
Proof.
  assert (forall fields kind canonical,
    MEDIA_TYPE_MAPPING !! kind = Some canonical ->
    fields !! "e" = Some (JStr kind) ->
    canonical_kind (JDict fields) = Return canonical) as Htable.
  { intros fields kind canonical Hk He. unfold canonical_kind.
    cbn [getitem]. rewrite He. cbn [mbind outcome_bind media_type_lookup].
    rewrite Hk. reflexivity. }
  split; [exact (fun fields => Htable fields "Image" "img" eq_refl)|].
  split; [exact (fun fields => Htable fields "RedditVideo" "video" eq_refl)|].
  split; [exact (fun fields => Htable fields "AnimatedImage" "gif" eq_refl)|].
  split.
  - intros mm Hnd Hknown.
    destruct (parse_media_types_total mm ∅) as [parsed Hp].
    { eapply Forall_impl; [exact Hknown|].
      intros value (fields & kind & -> & He & Hk).
      exact (canonical_kind_known fields kind He Hk). }
    exists parsed. split; [exact Hp|].
    split; [intros id; exact (parse_media_types_keys mm parsed id Hp)|].
    split.
    + intros id fields Hin.
      destruct (parse_media_types_stored mm ∅ parsed id (JDict fields)
                  Hnd Hp Hin) as (canonical & Hc & Hs).
      repeat split; intros He.
      * rewrite (Htable fields "Image" "img" eq_refl He) in Hc. congruence.
      * rewrite (Htable fields "RedditVideo" "video" eq_refl He) in Hc.
        congruence.
      * rewrite (Htable fields "AnimatedImage" "gif" eq_refl He) in Hc.
        congruence.
    + intros document. unfold _replace_richtext_links. rewrite Hp. reflexivity.
  - intros mm media_id fields kind Hin He Hk.
    destruct (parse_media_types_raise mm ∅) as (m & v & e & Hm & Hv & Hp).
    { apply Exists_exists. exists (media_id, JDict fields). split; [exact Hin|].
      intros canonical. unfold canonical_kind. cbn [getitem snd]. rewrite He.
      cbn [mbind outcome_bind media_type_lookup].
      rewrite (media_type_mapping_unknown kind Hk). discriminate. }
    exists e. split; [exact Hp|]. split.
    { intros document. unfold _replace_richtext_links. rewrite Hp.
      reflexivity. }
    intros Hwf. rewrite Forall_forall in Hwf.
    destruct (Hwf v) as (fields' & kind' & -> & He').
    { apply list_elem_of_fmap. exists (m, v). auto. }
    exists kind', m, fields'.
    unfold canonical_kind in Hv. cbn [getitem] in Hv. rewrite He' in Hv.
    cbn [mbind outcome_bind media_type_lookup] in Hv.
    destruct (MEDIA_TYPE_MAPPING !! kind') as [c|] eqn:Ek; [discriminate|].
    injection Hv as <-. split; [reflexivity|]. split; [|auto].
    intros Hknown. rewrite media_type_mapping_lookup in Ek.
    repeat case_decide; try discriminate. set_solver.
Qed.

End kinds_property.

Section written_facts.
Context `{!SetPop}.

(** X3. Every element the call writes into the document is a leaf whose
    kind is ["img"], ["video"] or ["gif"]: the translation of the kind of a
    descriptor that the media map holds under the identifier of the leaf. *)
Theorem written_elements_are_media_leaves
    (media_metadata : option (list (string * json))) (document : list json)
    (n : nat) :
  let document' := (_replace_richtext_links media_metadata document).1 in
  document' !! n = document !! n \/
  exists mm id value kind caption,
    media_metadata = Some mm /\
    (id, value) ∈ mm /\
    canonical_kind value = Return kind /\
    kind ∈ ["img"; "video"; "gif"] /\
    document' !! n = Some (media_element kind id caption).
Proof.
  unfold _replace_richtext_links.
  destruct media_metadata as [mm|]; [|cbn; auto].
  destruct (parse_media_types mm ∅) as [parsed|e] eqn:Ep; [|cbn; auto].
  destruct (replace_elements_inv parsed document 0 document) as [_ Hpos].
  cbn zeta.
  destruct (Hpos n) as [Hn|(element & ce & _ & _ & Hr & Hn)]; [auto|].
  right. destruct Hr as (items & item & _ & _ & _ & Hce).
  apply correct_element_for_inv in Hce
    as (u & tokens & id & kind & _ & _ & _ & Hk & Hce).
  destruct (parse_media_types_lookup mm ∅ parsed id kind Ep Hk)
    as [He|(value & Hin & Hv)]; [rewrite lookup_empty in He; discriminate|].
  assert (exists caption, ce = media_element kind id caption) as [caption ->].
  { destruct Hce as [[_ ->]|(t & _ & _ & ->)]; eauto. }
  exists mm, id, value, kind, caption.
  split; [reflexivity|]. split; [exact Hin|]. split; [exact Hv|].
  split; [exact (canonical_kind_range value kind Hv)|exact Hn].
Qed.

(** X4. A leaf without a caption, as the call writes it for a link whose
    display text is its URL, has no content: its round raises [TypeError].
    So when a first call has written such a leaf, a second call on the
    resulting document raises. *)
Theorem second_call_after_captionless_leaf_raises
    (mm : list (string * json)) (document : list json) (n : nat)
    (kind id : string) :
  (_replace_richtext_links (Some mm) document).1 !! n
    = Some (media_element kind id None) ->
  (forall parsed index d,
     replace_element parsed index (media_element kind id None) d
       = (d, Raise TypeError)) /\
  exists e,
    (_replace_richtext_links (Some mm)
       (_replace_richtext_links (Some mm) document).1).2 = Raise e.
Proof.
  intros Hn.
  assert (forall parsed index d,
    replace_element parsed index (media_element kind id None) d
      = (d, Raise TypeError)) as Hround.
  { intros parsed index d. unfold replace_element, media_element.
    cbn [get]. rewrite lookup_insert_ne by discriminate.
    rewrite lookup_singleton_ne by discriminate. reflexivity. }
  split; [exact Hround|].
  set (document' := (_replace_richtext_links (Some mm) document).1) in *.
  unfold _replace_richtext_links.
  destruct (parse_media_types mm ∅) as [parsed|e]; [|cbn; eauto].
  apply (replace_elements_raise parsed 0 document'
           (media_element kind id None)).
  - apply list_elem_of_lookup. eauto.
  - intros i d. rewrite Hround. cbn. eauto.
Qed.

(** X5. A link item whose URL has a token that is a key of the media map
    but which has no display text makes its round raise [KeyError] for
    ["t"], and with it the call: no leaf is written for it. *)
Theorem matched_link_without_text_raises
    (mm : list (string * json)) (parsed : gmap string string)
    (document : list json) (element : json) (items : list json)
    (fields : gmap string json) (u : string) (tokens : list string)
    (id : string) :
  parse_media_types mm ∅ = Return parsed ->
  element ∈ document ->
  get element "c" = Return (JList items) ->
  JDict fields ∈ items ->
  fields !! "e" = Some (JStr "link") ->
  fields !! "u" = Some (JStr u) ->
  fields !! "t" = None ->
  url_tokens (JStr u) = Return tokens ->
  id ∈ tokens -> id ∈ mm.*1 ->
  (forall index d,
     replace_item parsed index (JDict fields) d
       = (d, Raise (KeyError (JStr "t")))) /\
  exists e, (_replace_richtext_links (Some mm) document).2 = Raise e.
Proof.
  intros Hp Hel Hc Hin He Hu Ht Htok Hid Hkey.
  assert (forall index d,
    replace_item parsed index (JDict fields) d
      = (d, Raise (KeyError (JStr "t")))) as Hitem.
  { intros index d. unfold replace_item, correct_element_for.
    cbn [get getitem]. rewrite He, Hu, Ht.
    cbn [default from_option Datatypes.id mbind outcome_bind].
    rewrite Htok. cbn [mbind outcome_bind].
    assert (id ∈ intersection (dom parsed) tokens) as Hi.
    { apply list_elem_of_filter. split; [|exact Hid].
      apply (parse_media_types_keys mm parsed id Hp). exact Hkey. }
    destruct (intersection (dom parsed) tokens) as [|x l] eqn:Ei;
      [inversion Hi|].
    pose proof (set_pop_elem x l) as Hpop. rewrite <- Ei in Hpop at 2.
    apply list_elem_of_filter in Hpop as [Hdom _].
    apply elem_of_dom in Hdom as [kind Hk]. rewrite Hk.
    reflexivity. }
  split; [exact Hitem|]. unfold _replace_richtext_links. rewrite Hp.
  apply (replace_elements_raise parsed 0 document element); [exact Hel|].
  intros i d. unfold replace_element. rewrite Hc. cbn [iter].
  apply (replace_items_raise parsed i items (JDict fields)); [exact Hin|].
  intros d'. rewrite Hitem. cbn. eauto.
Qed.

(** X6. A link item without a URL makes its round raise [KeyError] for
    ["u"], whatever the media map holds, and with it the call of an object
    that has a media map. *)
Theorem link_without_url_raises
    (mm : list (string * json)) (document : list json) (element : json)
    (items : list json) (fields : gmap string json) :
  element ∈ document ->
  get element "c" = Return (JList items) ->
  JDict fields ∈ items ->
  fields !! "e" = Some (JStr "link") ->
  fields !! "u" = None ->
  (forall parsed index d,
     replace_item parsed index (JDict fields) d
       = (d, Raise (KeyError (JStr "u")))) /\
  exists e, (_replace_richtext_links (Some mm) document).2 = Raise e.
Proof.
  intros Hel Hc Hin He Hu.
  assert (forall parsed index d,
    replace_item parsed index (JDict fields) d
      = (d, Raise (KeyError (JStr "u")))) as Hitem.
  { intros parsed index d. unfold replace_item, correct_element_for.
    cbn [get getitem]. rewrite He, Hu. reflexivity. }
  split; [exact Hitem|]. unfold _replace_richtext_links.
  destruct (parse_media_types mm ∅) as [parsed|e]; [|cbn; eauto].
  apply (replace_elements_raise parsed 0 document element); [exact Hel|].
  intros i d. unfold replace_element. rewrite Hc. cbn [iter].
  apply (replace_items_raise parsed i items (JDict fields)); [exact Hin|].
  intros d'. rewrite Hitem. cbn. eauto.
Qed.

(** X7. A block that has no content field, or whose content is [null],
    makes its round raise [TypeError], and with it the call of an object that
    has a media map: the loop over the content has nothing to iterate. *)
Theorem block_without_content_raises
    (mm : list (string * json)) (document : list json)
    (fields : gmap string json) :
  JDict fields ∈ document ->
  fields !! "c" = None \/ fields !! "c" = Some JNull ->
  (forall parsed index d,
     replace_element parsed index (JDict fields) d = (d, Raise TypeError)) /\
  exists e, (_replace_richtext_links (Some mm) document).2 = Raise e.
Proof.
  intros Hel Hc.
  assert (forall parsed index d,
    replace_element parsed index (JDict fields) d = (d, Raise TypeError))
    as Hround.
  { intros parsed index d. unfold replace_element. cbn [get].
    destruct Hc as [-> | ->]; reflexivity. }
  split; [exact Hround|]. unfold _replace_richtext_links.
  destruct (parse_media_types mm ∅) as [parsed|e]; [|cbn; eauto].
  apply (replace_elements_raise parsed 0 document (JDict fields));
    [exact Hel|].
  intros i d. rewrite Hround. cbn. eauto.
Qed.

End written_facts.

(** ** More facts about the tokens of a URL *)

Section query_facts.

Lemma prefix_before_char (sep x y : string) (c : ascii) :
  has_char c sep = false ->
  String.prefix sep (x ++ String c y) = true -> String.prefix sep x = true.
Proof.
  revert x. induction sep as [|b sep IH]; intros x Hc Hp.
  - destruct x; reflexivity.
  - cbn [has_char] in Hc. apply orb_false_iff in Hc as [Hcb Hc].
    destruct x as [|d x].
    + change (String.prefix (String b sep) (String c y) = true) in Hp.
      cbn [String.prefix] in Hp.
      destruct (ascii_dec b c) as [->|]; [|discriminate].
      rewrite Ascii.eqb_refl in Hcb. discriminate.
    + change (String.prefix (String b sep) (String d (x ++ String c y)) = true)
        in Hp.
      cbn [String.prefix] in *.
      destruct (ascii_dec b d); [|discriminate]. exact (IH x Hc Hp).
Qed.

(** Splitting in front of a character that the separator does not have:
    when the front part has no separator, it stays in the first piece. *)
Lemma split_from_app_absent (sep p q : string) (c : ascii) :
  has_char c sep = false -> contains sep p = false ->
  split_from sep 0 (p ++ String c q) =
    glue [p] (cons_head c (split_from sep 0 q)).
Proof.
  intros Hc Hp. induction p as [|a p IH].
  - change (split_from sep 0 (String c q) =
            glue [EmptyString] (cons_head c (split_from sep 0 q))).
    cbn [split_from].
    destruct (String.prefix sep (String c q)) eqn:E.
    + apply (prefix_before_char sep EmptyString q c Hc) in E.
      cbn [contains] in Hp. congruence.
    + destruct (split_from sep 0 q); reflexivity.
  - cbn [contains] in Hp. apply orb_false_iff in Hp as [Hpa Hp].
    change (split_from sep 0 (String a (p ++ String c q)) =
            glue [String a p] (cons_head c (split_from sep 0 q))).
    cbn [split_from].
    destruct (String.prefix sep (String a (p ++ String c q))) eqn:E.
    + apply (prefix_before_char sep (String a p) q c Hc) in E. congruence.
    + rewrite (IH Hp). destruct (split_from sep 0 q); reflexivity.
Qed.

(** X8. The tokens of a URL come from the text between ["https://"] and the
    first ['?'] after it: for a URL ["https://" ++ p], with or without a
    query string after [p], they are the pieces of [p] between ['.'] and
    ['/'], so an identifier that occurs in the query string alone is not a
    token. *)
Theorem url_tokens_ignore_query (p q : string) :
  contains "https://" p = false -> has_char "?" p = false ->
  url_tokens (JStr ("https://" ++ p)) = Return (re_split_class dot_or_slash p) /\
  url_tokens (JStr ("https://" ++ p ++ "?" ++ q))
    = Return (re_split_class dot_or_slash p).
Proof.
  intros Hs Hq.
  assert (re_split_class (Ascii.eqb "?") p = [p]) as Hp.
  { apply re_split_class_absent. intros c Hc.
    apply Ascii.eqb_eq in Hc as <-. exact Hq. }
  split; unfold url_tokens, str_split, split.
  - change ("https://" ++ p) with (String "h" "ttps://" ++ p).
    rewrite split_from_sep_app, (split_from_absent _ p Hs).
    cbn [index lookup list_lookup mbind outcome_bind].
    rewrite split_from_char, Hp. reflexivity.
  - change ("https://" ++ p ++ "?" ++ q)
      with (String "h" "ttps://" ++ p ++ String "?" q).
    rewrite split_from_sep_app.
    rewrite (split_from_app_absent "https://" p q "?" eq_refl Hs).
    destruct (split_from_cons "https://" 0 q) as (h & t & ->).
    cbn [cons_head glue index lookup list_lookup mbind outcome_bind].
    rewrite split_from_char, re_split_class_app, Hp.
    change (re_split_class (Ascii.eqb "?") (String "?" h))
      with (EmptyString :: re_split_class (Ascii.eqb "?") h).
    cbn [glue index lookup list_lookup mbind outcome_bind].
    rewrite append_empty_r. reflexivity.
Qed.

End query_facts.

(** ** Blocks with several links *)

Section several_links.
Context `{!SetPop}.
Local Open Scope list_scope.

Lemma replace_items_app parsed index items1 items2 document :
  replace_items parsed index (items1 ++ items2) document =
    match replace_items parsed index items1 document with
    | (document', Return _) => replace_items parsed index items2 document'
    | (document', Raise e) => (document', Raise e)
    end.
Proof.
  revert document. induction items1 as [|item items1 IH]; intros document;
    [reflexivity|].
  cbn [replace_items app].
  destruct (replace_item parsed index item document) as [d1 [[]|e]];
    [apply IH|reflexivity].
Qed.

Lemma replace_items_length parsed index items document :
  length (replace_items parsed index items document).1 = length document.
Proof.
  destruct (replace_items parsed index items document) as [doc' r] eqn:E.
  apply replace_items_inv in E as [->|(item & ce & _ & _ & _ & _ & ->)];
    [reflexivity|].
  apply length_insert.
Qed.

(** X9. When a call returns and a block has several link items that match,
    the block is replaced by the leaf of the last of them: each matching
    link assigns to the position of the block in turn. *)
Theorem last_matching_link_wins
    (mm : list (string * json)) (parsed : gmap string string)
    (document : list json) (n : nat) (element : json)
    (items1 items2 : list json) (item ce : json) :
  parse_media_types mm ∅ = Return parsed ->
  document !! n = Some element ->
  get element "c" = Return (JList (items1 ++ item :: items2)) ->
  is_link item ->
  correct_element_for parsed item = Return (Some ce) ->
  Forall (no_match mm.*1) items2 ->
  (_replace_richtext_links (Some mm) document).2 = Return tt ->
  (_replace_richtext_links (Some mm) document).1 !! n = Some ce.
Proof.
  intros Hp Hn Hc Hl Hce Hrest Hret.
  unfold _replace_richtext_links in *. rewrite Hp in *.
  pose proof (lookup_lt_Some _ _ _ Hn) as Hlt.
  assert ((replace_elements parsed 0 (take n document) (take n document)).2
            = Return tt) as Hpre.
  { rewrite (replace_elements_outcome parsed (take n document) 0
               (take n document) document) by (rewrite length_take; lia).
    revert Hret.
    replace (replace_elements parsed 0 document document)
      with (replace_elements parsed 0
              (take n document ++ element :: drop (S n) document) document)
      by (rewrite take_drop_middle; done).
    rewrite replace_elements_app.
    destruct (replace_elements parsed 0 (take n document) document)
      as [d1 [[]|e]]; [reflexivity|discriminate]. }
  destruct (replace_elements_focus parsed document n element Hn Hpre)
    as (doc1 & Hlen & _ & Hfinal & Hraise).
  rewrite Hfinal. clear Hfinal.
  assert ((replace_element parsed n element doc1).2 = Return tt) as Hround.
  { destruct (replace_element parsed n element doc1).2 as [[]|e] eqn:E;
      [reflexivity|].
    rewrite (Hraise e eq_refl) in Hret. discriminate. }
  clear Hraise Hret Hpre. revert Hround.
  unfold replace_element. rewrite Hc. cbn [iter].
  rewrite replace_items_app.
  pose proof (replace_items_length parsed n items1 doc1) as Hlen1.
  destruct (replace_items parsed n items1 doc1) as [d1 [[]|e]];
    cbn [fst snd] in *; [|discriminate].
  intros _. cbn [replace_items]. unfold replace_item.
  destruct Hl as (fields & -> & He). cbn [get]. rewrite He.
  cbn [default from_option Datatypes.id eq_str String.eqb Ascii.eqb Bool.eqb].
  rewrite Hce. unfold setitem. rewrite decide_True by lia.
  rewrite (no_match_replace_items parsed mm.*1).
  - cbn [fst]. apply list_lookup_insert_eq. lia.
  - intros k. apply (parse_media_types_keys mm parsed k Hp).
  - exact Hrest.
Qed.

End several_links.

(** ** Facts about [INLINE_MEDIA_PATTERN] *)

Section pattern_facts.

Lemma strip_prefix_inv (l s s' : string) :
  strip_prefix l s = Some s' -> s = l ++ s'.
Proof.
  revert s. induction l as [|a l IH]; intros s Hs.
  - injection Hs as ->. reflexivity.
  - destruct s as [|b s]; cbn [strip_prefix] in Hs; [discriminate|].
    destruct (Ascii.eqb a b) eqn:E; [|discriminate].
    apply Ascii.eqb_eq in E as ->. rewrite (IH _ Hs). reflexivity.
Qed.

Lemma strip_prefix_app (l s : string) : strip_prefix l (l ++ s) = Some s.
Proof.
  induction l as [|a l IH]; [reflexivity|].
  change (strip_prefix (String a l) (String a (l ++ s)) = Some s).
  cbn [strip_prefix]. rewrite Ascii.eqb_refl. exact IH.
Qed.

Lemma matches_lit_app (l s : string) (k : string -> bool) :
  matches (Lit l) (l ++ s) k = k s.
Proof. cbn [matches]. rewrite strip_prefix_app. reflexivity. Qed.

Lemma matches_opt_skip (r : regex) (s : string) (k : string -> bool) :
  k s = true -> matches (Opt r) s k = true.
Proof. intros Hk. cbn [Opt matches]. rewrite Hk. apply orb_true_r. Qed.

Lemma matches_opt_take (r : regex) (s : string) (k : string -> bool) :
  matches r s k = true -> matches (Opt r) s k = true.
Proof. intros Hr. cbn [Opt matches]. rewrite Hr. reflexivity. Qed.

Lemma matches_star_stop (r : regex) (s : string) (k : string -> bool) :
  k s = true -> matches (Star r) s k = true.
Proof.
  intros Hk. cbn [matches]. destruct (String.length s); rewrite Hk; reflexivity.
Qed.

(** [.*] runs over a text without a newline. *)
Lemma matches_star_dot (text s : string) (k : string -> bool) :
  has_char newline text = false -> k s = true ->
  matches (Star Dot) (text ++ s) k = true.
Proof.
  intros Ht Hk. induction text as [|a text IH].
  - apply matches_star_stop, Hk.
  - cbn [has_char] in Ht. apply orb_false_iff in Ht as [Ha Ht].
    change (matches (Star Dot) (String a (text ++ s)) k = true).
    cbn [matches String.length].
    change ((fix rounds (fuel : nat) (s0 : string) {struct fuel} : bool :=
               (k s0 ||
                match fuel with
                | 0 => false
                | S fuel' =>
                    match s0 with
                    | EmptyString => false
                    | String a0 s' =>
                        negb (Ascii.eqb a0 newline) &&
                        (Nat.ltb (String.length s') (String.length s0) &&
                         rounds fuel' s')
                    end
                end)%bool) (String.length (text ++ s)) (text ++ s))
      with (matches (Star Dot) (text ++ s) k).
    rewrite (IH Ht), Ascii.eqb_sym, Ha.
    replace (Nat.ltb (String.length (text ++ s)) (S (String.length (text ++ s))))
      with true by (symmetry; apply Nat.ltb_lt; lia).
    apply orb_true_r.
Qed.

(** A match of the pattern starts with two newlines. *)
Lemma matches_pattern_blank_line (s : string) (k : string -> bool) :
  matches INLINE_MEDIA_PATTERN s k = true -> exists s', s = blank_line ++ s'.
Proof.
  unfold INLINE_MEDIA_PATTERN. cbn [matches].
  destruct (strip_prefix blank_line s) as [s'|] eqn:E; [|discriminate].
  intros _. exists s'. exact (strip_prefix_inv _ _ _ E).
Qed.

Lemma search_blank_line (s : string) :
  search INLINE_MEDIA_PATTERN s = true -> contains blank_line s = true.
Proof.
  induction s as [|a s IH]; cbn [search]; intros Hs.
  - rewrite orb_false_r in Hs.
    apply matches_pattern_blank_line in Hs as [s' Hs]. discriminate.
  - apply orb_true_iff in Hs as [Hs|Hs].
    + apply matches_pattern_blank_line in Hs as [s' ->].
      apply contains_spec. exists EmptyString, s'. reflexivity.
    + cbn [contains]. rewrite (IH Hs). apply orb_true_r.
Qed.

Lemma search_app (r : regex) (pre s : string) :
  matches r s (fun _ => true) = true -> search r (pre ++ s) = true.
Proof.
  intros Hm. induction pre as [|a pre IH].
  - change (search r s = true). destruct s; cbn [search]; rewrite Hm; reflexivity.
  - change (search r (String a (pre ++ s)) = true).
    cbn [search]. rewrite IH. apply orb_true_r.
Qed.

End pattern_facts.

(** The search on concrete bodies. *)
Example search_external_link :
  search INLINE_MEDIA_PATTERN ("a" ++ blank_line ++ "https://example.com")
    = false.
Proof. reflexivity. Qed.

Example search_bracket_then_space :
  search INLINE_MEDIA_PATTERN (blank_line ++ "[x] y") = false.
Proof. reflexivity. Qed.

Example search_bang_paren :
  search INLINE_MEDIA_PATTERN (blank_line ++ "!(x") = true.
Proof. reflexivity. Qed.

Example search_dash :
  search INLINE_MEDIA_PATTERN (blank_line ++ "-a") = false.
Proof. reflexivity. Qed.

Example search_any_character_for_dot :
  search INLINE_MEDIA_PATTERN (blank_line ++ "https://redditXcom/link") = true.
Proof. reflexivity. Qed.

Section pattern_properties.

Lemma matches_seq (r1 r2 : regex) (s : string) (k : string -> bool) :
  matches (Seq r1 r2) s k = matches r1 s (fun s' => matches r2 s' k).
Proof. reflexivity. Qed.

Lemma matches_alt (r1 r2 : regex) (s : string) (k : string -> bool) :
  matches (Alt r1 r2) s k = (matches r1 s k || matches r2 s k)%bool.
Proof. reflexivity. Qed.

Lemma matches_not_ahead (l s : string) (k : string -> bool) :
  matches (NotAhead l) s k = (negb (String.prefix l s) && k s)%bool.
Proof. reflexivity. Qed.

Lemma matches_class (cls : ascii -> bool) (a : ascii) (s : string)
    (k : string -> bool) :
  matches (Class cls) (String a s) k = (cls a && k s)%bool.
Proof. reflexivity. Qed.

Lemma matches_paragraph (rest : string) (c : ascii) :
  alphanumeric c = true ->
  String.prefix "https" (String c rest) = false ->
  matches INLINE_MEDIA_PATTERN (blank_line ++ String c rest) (fun _ => true)
    = true.
Proof.
  intros Hc Hs. unfold INLINE_MEDIA_PATTERN.
  rewrite matches_seq, matches_lit_app.
  rewrite matches_seq. apply matches_opt_skip.
  rewrite matches_seq. apply matches_opt_skip.
  rewrite matches_seq. apply matches_opt_skip.
  rewrite matches_seq, matches_alt. apply orb_true_iff. right.
  unfold media_id_with_caption. rewrite matches_seq.
  rewrite matches_not_ahead, Hs. cbn [negb andb].
  rewrite matches_seq. unfold Plus. rewrite matches_seq.
  rewrite matches_class, Hc. cbn [andb].
  apply matches_star_stop. apply matches_opt_skip. apply matches_opt_skip.
  reflexivity.
Qed.

(** X10. The pattern is found in every body that has an empty line followed
    by a letter or a digit, unless the text there starts with ["https"]: a
    second paragraph that begins with a word is enough. *)
Theorem pattern_found_at_paragraph (pre rest : string) (c : ascii) :
  alphanumeric c = true ->
  String.prefix "https" (String c rest) = false ->
  search INLINE_MEDIA_PATTERN (pre ++ blank_line ++ String c rest) = true.
Proof.
  intros Hc Hs. apply search_app, matches_paragraph; assumption.
Qed.

(** X11. The pattern is found in every body that has, after an empty line,
    a URL of [i.redd.it] or [preview.redd.it] with the scheme ["https://"],
    bare or as the target of a Markdown image whose alternative text has no
    newline. *)
Theorem pattern_found_at_reddit_media (pre alt host rest : string) :
  host ∈ ["i.redd.it"; "preview.redd.it"] ->
  has_char newline alt = false ->
  search INLINE_MEDIA_PATTERN
    (pre ++ blank_line ++ "https://" ++ host ++ rest) = true /\
  search INLINE_MEDIA_PATTERN
    (pre ++ blank_line ++ "![" ++ alt ++ "](https://" ++ host ++ rest) = true.
Proof.
  intros Hh Halt. split; apply search_app; unfold INLINE_MEDIA_PATTERN;
    rewrite matches_seq, matches_lit_app.
  - rewrite matches_seq. apply matches_opt_skip.
    rewrite matches_seq. apply matches_opt_skip.
    rewrite matches_seq. apply matches_opt_skip.
    rewrite matches_seq, matches_alt. apply orb_true_iff. left.
    unfold reddit_url.
    rewrite matches_seq, matches_lit_app, matches_seq, matches_alt.
    apply orb_true_iff. left. rewrite matches_seq, matches_alt.
    rewrite !elem_of_cons, elem_of_nil in Hh. destruct Hh as [->|[->|[]]].
    + apply orb_true_iff. right.
      change ("i.redd.it" ++ rest) with ("i" ++ ".redd.it" ++ rest).
      rewrite !matches_lit_app.
      apply matches_star_stop, matches_opt_skip. reflexivity.
    + apply orb_true_iff. left.
      change ("preview.redd.it" ++ rest)
        with ("preview" ++ ".redd.it" ++ rest).
      rewrite !matches_lit_app.
      apply matches_star_stop, matches_opt_skip. reflexivity.
  - change ("![" ++ alt ++ "](https://" ++ host ++ rest)
      with ("!" ++ "[" ++ alt ++ "]" ++ "(" ++ "https://" ++ host ++ rest).
    rewrite matches_seq. apply matches_opt_take. rewrite matches_lit_app.
    rewrite matches_seq. apply matches_opt_take.
    rewrite matches_seq, matches_lit_app, matches_seq.
    apply (matches_star_dot alt); [exact Halt|]. rewrite matches_lit_app.
    rewrite matches_seq. apply matches_opt_take. rewrite matches_lit_app.
    rewrite matches_seq, matches_alt. apply orb_true_iff. left.
    unfold reddit_url.
    rewrite matches_seq, matches_lit_app, matches_seq, matches_alt.
    apply orb_true_iff. left. rewrite matches_seq, matches_alt.
    rewrite !elem_of_cons, elem_of_nil in Hh. destruct Hh as [->|[->|[]]].
    + apply orb_true_iff. right.
      change ("i.redd.it" ++ rest) with ("i" ++ ".redd.it" ++ rest).
      rewrite !matches_lit_app.
      apply matches_star_stop, matches_opt_skip. reflexivity.
    + apply orb_true_iff. left.
      change ("preview.redd.it" ++ rest)
        with ("preview" ++ ".redd.it" ++ rest).
      rewrite !matches_lit_app.
      apply matches_star_stop, matches_opt_skip. reflexivity.
Qed.

End pattern_properties.

(** ** The paths of [edit] *)

Section edit_paths.
Context `{!SetPop} {Media : Type}.
Variable INLINE_MEDIA_PATTERN_search : string -> bool.
Variable _upload_inline_media : Media -> string.
Variable format : string -> list (string * string) -> string.
Variable _convert_to_fancypants : string -> list json.
Variable dumps : list json -> string.
Variable API_PATH_edit : string.
Local Open Scope list_scope.

Lemma uploads_only_uploads (inline_media : option (list (string * Media)))
    (path : string) (data : gmap string json) :
  Post path data ∉ uploads inline_media.
Proof.
  unfold uploads. destruct (truthy inline_media); [|apply not_elem_of_nil].
  intros Hin. apply list_elem_of_fmap in Hin as (entry & [=] & _).
Qed.


End edit_paths.


(** ** The refresh of the attributes *)

Section refresh_facts.
Context {V : Type}.

Lemma delete_attributes_lookup (attributes : list string)
    (updated : gmap string V) (a : string) :
  delete_attributes attributes updated !! a =
    if decide (a ∈ attributes) then None else updated !! a.
Proof.
  unfold delete_attributes. revert updated.
  induction attributes as [|x attributes IH]; intros updated.
  - cbn. rewrite decide_False by apply not_elem_of_nil. reflexivity.
  - cbn [foldl]. rewrite IH.
    assert ((if decide (is_Some (updated !! x)) then delete x updated
             else updated) !! a
            = if decide (a = x) then None else updated !! a) as ->.
    { destruct (decide (is_Some (updated !! x))) as [Hs|Hn];
        destruct (decide (a = x)) as [Hax|Hne].
      - subst a. apply lookup_delete_eq.
      - apply lookup_delete_ne. congruence.
      - subst a. destruct (updated !! x); [destruct Hn; eauto|reflexivity].
      - reflexivity. }
    destruct (decide (a ∈ attributes)) as [Hin|Hnin].
    + rewrite decide_True by (right; exact Hin). reflexivity.
    + destruct (decide (a = x)) as [->|Hne].
      * rewrite decide_True by left. reflexivity.
      * rewrite decide_False; [reflexivity|].
        intros Hin. apply elem_of_cons in Hin as [?|?]; contradiction.
Qed.

(** X16. After an edit posted as text, the attributes of the object are
    refreshed from the first object of the response, except ["_fetched"],
    ["_reddit"], ["_submission"], ["replies"] and ["subreddit"], which keep
    the value they had, or stay absent; an attribute that the response does
    not have keeps its value too.  A response without any object raises
    [IndexError]. *)
Theorem text_edit_keeps_transient_attributes
    (first : gmap string V) (others : list (gmap string V))
    (self_dict : gmap string V) :
  (exists self_dict',
     update_attributes false (Objects (first :: others)) self_dict
       = Return self_dict' /\
     forall a,
       self_dict' !! a =
         if decide (a ∈ TRANSIENT_ATTRIBUTES) then self_dict !! a
         else match first !! a with
              | Some v => Some v
              | None => self_dict !! a
              end) /\
  update_attributes false (Objects []) self_dict = Raise IndexError.
Proof.
  split; [|reflexivity]. eexists. split; [reflexivity|].
  intros a. rewrite lookup_union, delete_attributes_lookup.
  case_decide.
  - destruct (self_dict !! a); reflexivity.
  - destruct (first !! a), (self_dict !! a); reflexivity.
Qed.

(** X17. The refresh never removes an attribute of the object, on either
    path; and after a rich-text edit every entry of the response dict
    becomes an attribute, the five transient ones included. *)
Theorem refresh_keeps_every_attribute
    (is_richtext_json : bool) (updated : response V)
    (self_dict self_dict' : gmap string V) :
  update_attributes is_richtext_json updated self_dict = Return self_dict' ->
  (forall a, is_Some (self_dict !! a) -> is_Some (self_dict' !! a)) /\
  (is_richtext_json = true ->
   forall d a v, updated = Mapping d -> d !! a = Some v ->
     self_dict' !! a = Some v).
Proof.
  intros Hu. split.
  - intros a [v Ha]. unfold update_attributes in Hu.
    destruct is_richtext_json; cbn [negb] in Hu.
    + destruct updated as [[|x l]|d]; try discriminate; injection Hu as <-.
      * eauto.
      * apply lookup_union_is_Some. right. eauto.
    + destruct updated as [[|x l]|d]; [discriminate| |discriminate].
      change (Return (delete_attributes TRANSIENT_ATTRIBUTES x ∪ self_dict)
              = Return self_dict') in Hu.
      injection Hu as <-. apply lookup_union_is_Some. right. eauto.
  - intros -> d a v -> Ha. cbn in Hu. injection Hu as <-.
    rewrite lookup_union, Ha. destruct (self_dict !! a); reflexivity.
Qed.

End refresh_facts.

(** ** The calls of the whole [edit] *)

Section full_edit_facts.
Context `{!SetPop} {Media V E : Type}.
Variable _upload_inline_media : Media -> E + string.
Variable format : string -> list (string * string) -> E + string.
Variable _convert_to_fancypants : string -> E + list json.
Variable post : string -> gmap string json -> E + response V.
Variable dumps : list json -> string.
Variable API_PATH_edit : string.
Local Open Scope list_scope.





(** X14. A body without an empty line, edited without inline media, makes
    one call, the post of the body as Markdown text, whatever
    [preserve_inline_media] and the media map are: the pattern needs two
    newlines in a row.  The edit then ends as the post and the refresh do;
    with a response that holds no object it raises [IndexError], after
    having posted. *)
Theorem edit_single_paragraph_posts_text
    (self_dict : gmap string V)
    (fullname : string) (validate_on_submit : bool)
    (media_metadata : option (list (string * json))) (body : string)
    (preserve_inline_media : bool)
    (inline_media : option (list (string * Media))) :
  let data : gmap string json :=
    <["text" := JStr body]>
      {[ "thing_id" := JStr fullname;
         "validate_on_submit" := JBool validate_on_submit ]} in
  let result :=
    Full.edit _upload_inline_media format _convert_to_fancypants post dumps
      API_PATH_edit self_dict fullname validate_on_submit media_metadata body
      preserve_inline_media inline_media in
  contains blank_line body = false ->
  truthy inline_media = false ->
  result.1 = [Post API_PATH_edit data] /\
  result.2 =
    match post API_PATH_edit data with
    | inl e => Failed e
    | inr updated =>
        match update_attributes false updated self_dict with
        | Raise e => Raised e
        | Return self_dict' => Returned self_dict'
        end
    end /\
  (post API_PATH_edit data = inr (Objects []) -> result.2 = Raised IndexError).
Proof.
  intros data result Hb Hm. subst result. unfold Full.edit. rewrite Hm.
  destruct (search INLINE_MEDIA_PATTERN body) eqn:Es;
    [apply search_blank_line in Es; congruence|].
  fold data.
  destruct (post API_PATH_edit data) as [e|updated] eqn:Ep.
  - repeat split. discriminate.
  - split; [destruct (update_attributes false updated self_dict); reflexivity|].
    split; [destruct (update_attributes false updated self_dict); reflexivity|].
    intros [= ->]. reflexivity.
Qed.


End full_edit_facts.

(** ** The two descriptions of [edit] *)

Section edit_agreement.
Context `{!SetPop} {Media V E : Type}.
Variable _upload_inline_media : Media -> string.
Variable format : string -> list (string * string) -> string.
Variable _convert_to_fancypants : string -> list json.
Variable post : string -> gmap string json -> E + response V.
Variable dumps : list json -> string.
Variable API_PATH_edit : string.
Local Open Scope list_scope.

Lemma upload_entries_total (inline_media : list (string * Media)) :
  Full.upload_entries (E := E) (fun media => inr (_upload_inline_media media))
    inline_media
  = ((fun entry => UploadInlineMedia entry.2) <$> inline_media,
     inr ((fun entry => (entry.1, _upload_inline_media entry.2))
            <$> inline_media)).
Proof.
  induction inline_media as [|[placeholder media] rest IH]; [reflexivity|].
  cbn [Full.upload_entries]. rewrite IH. reflexivity.
Qed.

(** When the upload, the formatting and the conversion return, the whole
    [edit] makes the calls of the description that stops at the request,
    and an exception of the reconciler ends both the same way. *)
Lemma edit_agrees_up_to_post (self_dict : gmap string V)
    (fullname : string) (validate_on_submit : bool)
    (media_metadata : option (list (string * json))) (body : string)
    (preserve_inline_media : bool)
    (inline_media : option (list (string * Media))) :
  let whole :=
    Full.edit (fun media => inr (_upload_inline_media media))
      (fun body urls => inr (format body urls))
      (fun body => inr (_convert_to_fancypants body)) post dumps
      API_PATH_edit self_dict fullname validate_on_submit media_metadata body
      preserve_inline_media inline_media in
  let upto :=
    edit (search INLINE_MEDIA_PATTERN) _upload_inline_media format
      _convert_to_fancypants dumps API_PATH_edit
      fullname validate_on_submit media_metadata body
      preserve_inline_media inline_media in
  whole.1 = upto.1 /\
  (forall e, upto.2 = Raise e -> whole.2 = Raised e).
Proof.
  cbn zeta. unfold Full.edit, edit, is_richtext_json, uploads, formatted.
  rewrite upload_entries_total.
  destruct (truthy inline_media).
  - rewrite orb_true_r.
    destruct (if preserve_inline_media
              then _replace_richtext_links media_metadata _
              else _) as [document' [[]|e]].
    + destruct (post _ _) as [e|updated]; [|destruct (update_attributes _ _ _)];
        cbn [fst snd]; rewrite <- ?app_assoc; (split; [reflexivity|]);
        discriminate.
    + split; [reflexivity|]. intros e' [= ->]. reflexivity.
  - rewrite orb_false_r. destruct (search INLINE_MEDIA_PATTERN body).
    + destruct (if preserve_inline_media
                then _replace_richtext_links media_metadata _
                else _) as [document' [[]|e]].
      * destruct (post _ _) as [e|updated];
          [|destruct (update_attributes _ _ _)];
          cbn [fst snd]; (split; [reflexivity|]); discriminate.
      * split; [reflexivity|]. intros e' [= ->]. reflexivity.
    + destruct (post _ _) as [e|updated];
        [|destruct (update_attributes _ _ _)];
        cbn [fst snd]; (split; [reflexivity|]); discriminate.
Qed.

End edit_agreement.

(** ** The further properties at concrete inputs *)

Lemma parsed_media_types_correspond_witness :
  let parsed : gmap string string := {[ "abc" := "img"; "xyz" := "video" ]} in
  (forall id kind, parsed !! id = Some kind ->
     exists value,
       (id, value) ∈ image_and_video /\ canonical_kind value = Return kind) /\
  (NoDup image_and_video.*1 ->
   forall id value, (id, value) ∈ image_and_video ->
     exists kind, canonical_kind value = Return kind /\
       parsed !! id = Some kind).
Proof.
  intros parsed.
  apply (parsed_media_types_correspond image_and_video parsed).
  vm_compute. reflexivity.
Defined.

Lemma second_call_after_captionless_leaf_raises_witness :
  let url := "https://i.redd.it/abc.png" in
  let document := [par [link url url]] in
  (forall parsed index d,
     @replace_element first_pop parsed index (media_element "img" "abc" None) d
       = (d, Raise TypeError)) /\
  exists e,
    (@_replace_richtext_links first_pop (Some one_image)
       (@_replace_richtext_links first_pop (Some one_image) document).1).2
      = Raise e.
Proof.
  intros url document.
  apply (@second_call_after_captionless_leaf_raises first_pop one_image
           document 0 "img" "abc").
  vm_compute. reflexivity.
Defined.

Lemma matched_link_without_text_raises_witness :
  let fields : gmap string json :=
    {[ "e" := JStr "link"; "u" := JStr "https://i.redd.it/abc.png" ]} in
  (forall index d,
     @replace_item first_pop {[ "abc" := "img" ]} index (JDict fields) d
       = (d, Raise (KeyError (JStr "t")))) /\
  exists e,
    (@_replace_richtext_links first_pop (Some one_image)
       [par [JDict fields]]).2 = Raise e.
Proof.
  intros fields.
  apply (@matched_link_without_text_raises first_pop one_image
           {[ "abc" := "img" ]} [par [JDict fields]] (par [JDict fields])
           [JDict fields] fields "https://i.redd.it/abc.png"
           ["i"; "redd"; "it"; "abc"; "png"] "abc");
    try (vm_compute; reflexivity).
  - apply list_elem_of_here.
  - apply list_elem_of_here.
  - rewrite !elem_of_cons. auto.
  - apply list_elem_of_here.
Defined.

Lemma link_without_url_raises_witness :
  let fields : gmap string json :=
    {[ "e" := JStr "link"; "t" := JStr "a page" ]} in
  (forall parsed index d,
     @replace_item first_pop parsed index (JDict fields) d
       = (d, Raise (KeyError (JStr "u")))) /\
  exists e,
    (@_replace_richtext_links first_pop (Some [])
       [par [text "see "; JDict fields]]).2 = Raise e.
Proof.
  intros fields.
  apply (@link_without_url_raises first_pop [] [par [text "see "; JDict fields]]
           (par [text "see "; JDict fields]) [text "see "; JDict fields]
           fields);
    try (vm_compute; reflexivity).
  - apply list_elem_of_here.
  - apply list_elem_of_further, list_elem_of_here.
Defined.

Lemma block_without_content_raises_witness :
  let rule : gmap string json := {[ "e" := JStr "hr" ]} in
  (forall parsed index d,
     @replace_element first_pop parsed index (JDict rule) d
       = (d, Raise TypeError)) /\
  exists e,
    (@_replace_richtext_links first_pop (Some one_image)
       [par [text "above"]; JDict rule; par [text "below"]]).2 = Raise e.
Proof.
  intros rule.
  apply (@block_without_content_raises first_pop one_image
           [par [text "above"]; JDict rule; par [text "below"]] rule).
  - apply list_elem_of_further, list_elem_of_here.
  - left. vm_compute. reflexivity.
Defined.

Lemma url_tokens_ignore_query_witness :
  url_tokens (JStr "https://i.redd.it/abc.png")
    = Return ["i"; "redd"; "it"; "abc"; "png"] /\
  url_tokens (JStr "https://i.redd.it/abc.png?width=640&id=xyz")
    = Return ["i"; "redd"; "it"; "abc"; "png"].
Proof.
  apply (url_tokens_ignore_query "i.redd.it/abc.png" "width=640&id=xyz");
    vm_compute; reflexivity.
Defined.

Lemma last_matching_link_wins_witness :
  let first := link "https://i.redd.it/abc.png" "https://i.redd.it/abc.png" in
  let last := link "https://i.redd.it/xyz.mp4" "https://i.redd.it/xyz.mp4" in
  (@_replace_richtext_links first_pop (Some image_and_video)
     [par [first; last; text " end"]]).1 !! 0
    = Some (media_element "video" "xyz" None).
Proof.
  intros first last.
  apply (@last_matching_link_wins first_pop image_and_video
           {[ "abc" := "img"; "xyz" := "video" ]}
           [par [first; last; text " end"]] 0
           (par [first; last; text " end"]) [first] [text " end"] last
           (media_element "video" "xyz" None));
    try (vm_compute; reflexivity).
  - eexists. split; [reflexivity|]. vm_compute. reflexivity.
  - repeat constructor. eexists. split; [reflexivity|].
    vm_compute. discriminate.
Defined.

Lemma pattern_found_at_paragraph_witness :
  search INLINE_MEDIA_PATTERN ("Hello" ++ blank_line ++ "world") = true.
Proof.
  apply (pattern_found_at_paragraph "Hello" "orld" "w"); reflexivity.
Defined.

Lemma pattern_found_at_reddit_media_witness :
  search INLINE_MEDIA_PATTERN
    ("Look:" ++ blank_line ++ "https://" ++ "i.redd.it" ++ "/abc.png") = true /\
  search INLINE_MEDIA_PATTERN
    ("Look:" ++ blank_line ++ "![" ++ "a cat" ++ "](https://" ++ "i.redd.it"
       ++ "/abc.png)") = true.
Proof.
  apply (pattern_found_at_reddit_media "Look:" "a cat" "i.redd.it" "/abc.png").
  - apply list_elem_of_here.
  - reflexivity.
Defined.


Lemma refresh_keeps_every_attribute_witness :
  let updated : gmap string nat := {[ "body" := 1; "_reddit" := 2 ]} in
  let self_dict : gmap string nat := {[ "_reddit" := 0; "id" := 5 ]} in
  (forall a, is_Some (self_dict !! a) ->
     is_Some ((updated ∪ self_dict) !! a)) /\
  (true = true ->
   forall d a v, Mapping updated = Mapping d -> d !! a = Some v ->
     (updated ∪ self_dict) !! a = Some v).
Proof.
  intros updated self_dict.
  apply (refresh_keeps_every_attribute true (Mapping updated) self_dict
           (updated ∪ self_dict)).
  reflexivity.
Defined.

Lemma media_kinds_translated_or_raise_witness :
  (exists parsed,
     parse_media_types image_and_video ∅ = Return parsed /\
     (forall id, id ∈ dom parsed <-> id ∈ image_and_video.*1) /\
     (forall id fields, (id, JDict fields) ∈ image_and_video ->
        (fields !! "e" = Some (JStr "Image") ->
           parsed !! id = Some "img") /\
        (fields !! "e" = Some (JStr "RedditVideo") ->
           parsed !! id = Some "video") /\
        (fields !! "e" = Some (JStr "AnimatedImage") ->
           parsed !! id = Some "gif")) /\
     (forall document,
        @_replace_richtext_links first_pop (Some image_and_video) document
          = @replace_elements first_pop parsed 0 document document)) /\
  (let mm := [("abc", descriptor "Image"); ("xyz", descriptor "Sticker")] in
   exists e,
     parse_media_types mm ∅ = Raise e /\
     (forall document,
        @_replace_richtext_links first_pop (Some mm) document
          = (document, Raise e)) /\
     (Forall well_formed_descriptor mm.*2 ->
      exists kind' media_id' fields',
        e = UnknownMediaKind kind' /\
        (kind' ∉ ["Image"; "RedditVideo"; "AnimatedImage"]) /\
        (media_id', JDict fields') ∈ mm /\
        fields' !! "e" = Some (JStr kind'))).
Proof.
  split.
  - apply (proj1 (proj2 (proj2 (proj2
             (@media_kinds_translated_or_raise first_pop))))
             image_and_video).
    + apply NoDup_cons. split; [intros Hin; not_in_sample Hin|].
      apply NoDup_singleton.
    + repeat constructor.
      * eexists _, "Image". split; [reflexivity|].
        split; [vm_compute; reflexivity|]. apply list_elem_of_here.
      * eexists _, "RedditVideo". split; [reflexivity|].
        split; [vm_compute; reflexivity|].
        apply list_elem_of_further, list_elem_of_here.
  - intros mm.
    apply (proj2 (proj2 (proj2 (proj2
             (@media_kinds_translated_or_raise first_pop))))
             mm "xyz" {[ "status" := JStr "valid"; "e" := JStr "Sticker" ]}
             "Sticker").
    + apply list_elem_of_further, list_elem_of_here.
    + vm_compute. reflexivity.
    + intros Hin. not_in_sample Hin.
Defined.


Lemma edit_single_paragraph_posts_text_witness :
  let data : gmap string json :=
    <["text" := JStr "an edited body"]>
      {[ "thing_id" := JStr "t1_dkk4qjd"; "validate_on_submit" := JBool true ]} in
  let result :=
    @Full.edit first_pop string nat string
      (fun media => inr media) (fun body _ => inr body)
      (fun _ => inr [par [text "hello"]]) (fun _ _ => inr (Objects []))
      (fun _ => "[]") "api/editusertext/" ∅ "t1_dkk4qjd" true
      (Some one_image) "an edited body" true None in
  result.1 = [Post "api/editusertext/" data] /\
  result.2 = Raised IndexError.
Proof.
  intros data result.
  destruct (@edit_single_paragraph_posts_text first_pop string nat string
              (fun media => inr media) (fun body _ => inr body)
              (fun _ => inr [par [text "hello"]])
              (fun _ _ => inr (Objects []))
              (fun _ => "[]") "api/editusertext/" ∅ "t1_dkk4qjd" true
              (Some one_image) "an edited body" true None
              eq_refl eq_refl) as (Hcalls & _ & Hraise).
  split; [exact Hcalls|]. exact (Hraise eq_refl).
Defined.

